(** * AudioManager: the media-element audio-routing manager

    A shallow embedding of [src/content/modules/audioManager.js] and the
    properties of its routing protocol.

    The manager is a JavaScript object whose methods mutate its own fields,
    write one expando property ([_audioSource]) on the media elements they
    are given, and call into the browser (Web Audio, [URL], [location]).
    Every method is embedded as a computation in a state-and-exception
    monad over a [World]; the browser is an explicit [Platform] argument
    that fixes the outcome of each call the method can make. *)

From Stdlib Require Import ZArith QArith Qabs String Ascii List Bool Lia DecimalString.
From Stdlib Require Import PrimFloat FloatOps SpecFloat Uint63.
From stdpp Require Import base decidable sets gmap strings.

#[local] Set Warnings "-clear-no-such-hyp".

Local Open Scope string_scope.
Local Open Scope Z_scope.

(** ** JavaScript values used by the manager *)

(** A thrown value.  Everything the browser throws at the manager is an
    [Error] or [DOMException] object, which carries a [message] string. *)
Record Exn := { message : string }.

(** The result of evaluating a call: a value, or a thrown exception. *)
Inductive Completion (A : Type) : Type :=
| Normal (a : A)
| Throw (e : Exn).
Arguments Normal {A} a.
Arguments Throw {A} e.

(** [Boolean(s)] for a string: every string but the empty one is truthy. *)
Definition truthy (s : string) : bool :=
  match s with
  | EmptyString => false
  | String _ _ => true
  end.

(** [s.startsWith(pre)]. *)
Definition startsWith (s pre : string) : bool := String.prefix pre s.

(** [c.toLowerCase()] on one ASCII character. *)
Definition lower_ascii (c : ascii) : ascii :=
  let n := nat_of_ascii c in
  if (Nat.leb 65 n && Nat.leb n 90)%bool then ascii_of_nat (n + 32) else c.

(** [s.toLowerCase()].  The only string the manager lower-cases is
    [location.hostname], which is ASCII. *)
Fixpoint toLowerCase (s : string) : string :=
  match s with
  | EmptyString => EmptyString
  | String c s' => String (lower_ascii c) (toLowerCase s')
  end.

(** A media element as the manager reads it.  [el_id] is the identity of
    the object (what [Set.has] and [WeakSet.has] compare); the other
    fields are the properties read by [isCrossOriginElement], which the
    page may change between two calls. *)
Record Element := {
  el_id : nat;
  crossOrigin : option string;   (* [null] when the attribute is absent *)
  src : string;
  currentSrc : string;
  source_src : option string     (* [querySelector('source')?.src] *)
}.

(** A JavaScript number is an IEEE 754 binary64 value. *)
Abbreviation number := PrimFloat.float.

(** The number that holds the integer [z]; every integer of magnitude
    below [2^53] is held exactly. *)
Definition number_of_Z (z : Z) : number :=
  if Z.ltb z 0 then PrimFloat.opp (PrimFloat.of_uint63 (Uint63.of_Z (Z.opp z)))
  else PrimFloat.of_uint63 (Uint63.of_Z z).


(** A [GainNode]; only the number last assigned to its [gain.value] is
    observed. *)
Record GainNode := { gain_value : number }.

(** ** The browser *)

(** The calls into Web Audio, recorded in the order they are made. *)
Inductive PlatformCall : Type :=
| CallNewAudioContext
| CallCreateGain
| CallConnectDestination
| CallCreateMediaElementSource (e : nat)
| CallSourceConnect (e : nat)
| CallClose.

(** What the browser answers during one method call.  Each method makes
    every Web Audio call at most once, so one answer per call is enough;
    successive method calls may face different answers. *)
Record Platform := {
  location_hostname : string;
  location_origin : string;
  (* [new URL(s).origin]; throws a TypeError when [s] does not parse *)
  URL_origin : string -> Completion string;
  (* [new (window.AudioContext || window.webkitAudioContext)()] *)
  new_AudioContext : Completion nat;
  (* [audioContext.createGain()] *)
  createGain : Completion unit;
  (* [gainNode.connect(audioContext.destination)] *)
  connect_destination : Completion unit;
  (* [audioContext.createMediaElementSource(element)] *)
  createMediaElementSource : nat -> Completion unit;
  (* [source.connect(gainNode)] *)
  source_connect : nat -> Completion unit;
  (* [audioContext.close()] *)
  close : Completion unit
}.

(** ** The state *)

(** The fields of the [AudioManager] object, then the two pieces of the
    page the manager writes to or that observe it: the set of elements
    whose [_audioSource] property is set, and the trace of Web Audio
    calls. *)
Record World := {
  audioContext : option nat;
  gainNode : option GainNode;
  connectedElements : gset nat;
  blockedSites : gset string;
  blockedElements : gset nat;
  audioSource : gset nat;
  calls : list PlatformCall
}.

(** [VOLUME_MAX] is imported from [./constants.js].

    Modelled from the spec: the module [constants.js] is not among the
    sources; the specification fixes the reference of the gain mapping at
    100 (100% is unity gain, the gain is [volumePercent / 100]). *)
Definition VOLUME_MAX : Z := 100.

(** ** The monad of method bodies *)

Definition M (A : Type) : Type := World -> Completion A * World.

Definition ret {A} (a : A) : M A := fun w => (Normal a, w).

Definition bind {A B} (m : M A) (k : A -> M B) : M B :=
  fun w =>
    match m w with
    | (Normal a, w') => k a w'
    | (Throw e, w') => (Throw e, w')
    end.

Definition get : M World := fun w => (Normal w, w).

Definition modify (f : World -> World) : M unit := fun w => (Normal tt, f w).

(** [try { m } catch (e) { handler e }]: the writes made before the
    throw stay. *)
Definition try_catch {A} (m : M A) (handler : Exn -> M A) : M A :=
  fun w =>
    match m w with
    | (Normal a, w') => (Normal a, w')
    | (Throw e, w') => handler e w'
    end.

(** A Web Audio call: it is recorded, then completes as the browser says. *)
Definition platform_call {A} (c : PlatformCall) (r : Completion A) : M A :=
  fun w =>
    (r, {| audioContext := audioContext w; gainNode := gainNode w;
           connectedElements := connectedElements w;
           blockedSites := blockedSites w;
           blockedElements := blockedElements w;
           audioSource := audioSource w;
           calls := calls w ++ [c] |}).

(** A call to the pure part of the browser ([new URL(s).origin]). *)
Definition pure_call {A} (r : Completion A) : M A := fun w => (r, w).

Notation "'let!' x ':=' m 'in' k" := (bind m (fun x => k))
  (at level 10, x name, m at level 100, k at level 200).
Notation "m ';;;' k" := (bind m (fun _ => k))
  (at level 100, k at level 200, right associativity).

(** Field updates. *)
Definition set_graph (c : option nat) (g : option GainNode) (w : World) : World :=
  {| audioContext := c; gainNode := g;
     connectedElements := connectedElements w;
     blockedSites := blockedSites w;
     blockedElements := blockedElements w;
     audioSource := audioSource w;
     calls := calls w |}.

Definition set_audioContext (c : option nat) (w : World) : World :=
  set_graph c (gainNode w) w.

Definition set_gainNode (g : option GainNode) (w : World) : World :=
  set_graph (audioContext w) g w.

Definition set_connectedElements (s : gset nat) (w : World) : World :=
  {| audioContext := audioContext w; gainNode := gainNode w;
     connectedElements := s;
     blockedSites := blockedSites w;
     blockedElements := blockedElements w;
     audioSource := audioSource w;
     calls := calls w |}.

Definition set_blockedSites (s : gset string) (w : World) : World :=
  {| audioContext := audioContext w; gainNode := gainNode w;
     connectedElements := connectedElements w;
     blockedSites := s;
     blockedElements := blockedElements w;
     audioSource := audioSource w;
     calls := calls w |}.

Definition set_blockedElements (s : gset nat) (w : World) : World :=
  {| audioContext := audioContext w; gainNode := gainNode w;
     connectedElements := connectedElements w;
     blockedSites := blockedSites w;
     blockedElements := s;
     audioSource := audioSource w;
     calls := calls w |}.

Definition set_audioSource (s : gset nat) (w : World) : World :=
  {| audioContext := audioContext w; gainNode := gainNode w;
     connectedElements := connectedElements w;
     blockedSites := blockedSites w;
     blockedElements := blockedElements w;
     audioSource := s;
     calls := calls w |}.

(** [set.has(x)]. *)
Definition has `{Countable K} (s : gset K) (x : K) : bool := bool_decide (x ∈ s).

(** [Array.prototype.some] with a callback that may throw: the elements
    are visited in order and the visit stops at the first [true]. *)
Fixpoint array_some {A} (f : A -> M bool) (l : list A) : M bool :=
  match l with
  | [] => ret false
  | x :: l' => let! b := f x in if b then ret true else array_some f l'
  end.

(** ** The methods of [AudioManager] *)

(** [new AudioManager()], on a page whose elements carry the markers
    [marked] and where the calls [tr] were made before. *)
Definition constructor (marked : gset nat) (tr : list PlatformCall) : World :=
  {| audioContext := None; gainNode := None;
     connectedElements := ∅; blockedSites := ∅; blockedElements := ∅;
     audioSource := marked; calls := tr |}.

(** [initAudioContext()].  The three statements of the [try] block each
    write their field as soon as the call before them has returned. *)
Definition initAudioContext (p : Platform) : M bool :=
  let! w := get in
  match audioContext w with
  | None =>
      try_catch
        (let! c := platform_call CallNewAudioContext (new_AudioContext p) in
         modify (set_audioContext (Some c));;;
         platform_call CallCreateGain (createGain p);;;
         modify (set_gainNode (Some {| gain_value := 1%float |}));;;
         platform_call CallConnectDestination (connect_destination p);;;
         ret true)
        (fun _ => ret false)
  | Some _ => ret true
  end.

(** [isSiteBlocked()]. *)
Definition isSiteBlocked (p : Platform) : M bool :=
  let hostname := toLowerCase (location_hostname p) in
  let! w := get in
  ret (has (blockedSites w) hostname).

(** [markSiteAsBlocked()]. *)
Definition markSiteAsBlocked (p : Platform) : M unit :=
  let hostname := toLowerCase (location_hostname p) in
  modify (fun w => set_blockedSites ({[ hostname ]} ∪ blockedSites w) w).

(** [[element.src, element.currentSrc,
      element.querySelector('source')?.src].filter(Boolean)]. *)
Definition sources_of (element : Element) : list string :=
  List.filter truthy
    ([src element; currentSrc element] ++
     match source_src element with Some s => [s] | None => [] end).

(** The callback given to [sources.some] in [isCrossOriginElement]. *)
Definition source_is_foreign (p : Platform) (pageOrigin : string) (s : string) : M bool :=
  if startsWith s "blob:" then ret false
  else if startsWith s "data:" then ret false
  else
    let! srcOrigin := pure_call (URL_origin p s) in
    ret (negb (String.eqb srcOrigin pageOrigin)).

(** [isCrossOriginElement(element)].  The first [if] either returns
    ([Some b]) or falls through ([None]). *)
Definition isCrossOriginElement (p : Platform) (element : Element) : M bool :=
  let! early :=
    match crossOrigin element with
    | None =>
        if truthy (currentSrc element) then
          try_catch
            (let! srcOrigin := pure_call (URL_origin p (currentSrc element)) in
             let pageOrigin := location_origin p in
             if negb (String.eqb srcOrigin pageOrigin) then ret (Some true)
             else ret None)
            (fun _ => ret (Some true))
        else ret None
    | Some _ => ret None
    end in
  match early with
  | Some b => ret b
  | None =>
      let sources := sources_of element in
      if Nat.eqb (length sources) 0 then ret false
      else
        try_catch
          (let pageOrigin := location_origin p in
           array_some (source_is_foreign p pageOrigin) sources)
          (fun _ => ret true)
  end.

(** [shouldBlockAmplification(element)]. *)
Definition shouldBlockAmplification (p : Platform) (element : Element) : M bool :=
  let! w := get in
  if has (blockedElements w) (el_id element) then ret true
  else isCrossOriginElement p element.

(** [tryConnectToAudioContext(element)].  The [console] calls are left
    out; in the [catch] block [e.message.includes(...)] only selects a
    log line. *)
Definition tryConnectToAudioContext (p : Platform) (element : Element) : M bool :=
  let id := el_id element in
  let! w := get in
  match audioContext w, gainNode w with
  | Some _, Some _ =>
      if has (connectedElements w) id then ret true
      else if has (audioSource w) id then
        modify (fun w => set_connectedElements ({[ id ]} ∪ connectedElements w) w);;;
        ret true
      else
        let! blocked := shouldBlockAmplification p element in
        if blocked then ret false
        else
          try_catch
            (platform_call (CallCreateMediaElementSource id) (createMediaElementSource p id);;;
             platform_call (CallSourceConnect id) (source_connect p id);;;
             modify (fun w => set_connectedElements ({[ id ]} ∪ connectedElements w) w);;;
             modify (fun w => set_audioSource ({[ id ]} ∪ audioSource w) w);;;
             ret true)
            (fun _ =>
               modify (fun w => set_blockedElements ({[ id ]} ∪ blockedElements w) w);;;
               ret false)
  | _, _ => ret false
  end.

(** [volume / VOLUME_MAX]. *)
Definition gain_of (volume : Z) : number :=
  PrimFloat.div (number_of_Z volume) (number_of_Z VOLUME_MAX).

(** [setGainValue(volume)].  The condition is evaluated left to right
    with the short circuit of [&&]. *)
Definition setGainValue (p : Platform) (volume : Z) : M unit :=
  let! w := get in
  match gainNode w with
  | Some _ =>
      let! blocked := isSiteBlocked p in
      if (negb blocked && Nat.ltb 0 (size (connectedElements w)))%bool then
        modify (set_gainNode (Some {| gain_value := gain_of volume |}))
      else ret tt
  | None => ret tt
  end.

(** [isAmplificationAvailable()], as the truth value of what it returns
    ([false], the context object, or the result of [initAudioContext]). *)
Definition isAmplificationAvailable (p : Platform) : M bool :=
  let! blocked := isSiteBlocked p in
  if negb blocked then
    let! w := get in
    match audioContext w with
    | Some _ => ret true
    | None => initAudioContext p
    end
  else ret false.

(** [cleanupAudioSource(element)]. *)
Definition cleanupAudioSource (element : Element) : M unit :=
  modify (fun w => set_connectedElements (connectedElements w ∖ {[ el_id element ]}) w).

(** [reset()]. *)
Definition reset (p : Platform) : M unit :=
  modify (set_blockedSites ∅);;;
  modify (set_blockedElements ∅);;;
  let! w := get in
  match audioContext w with
  | Some _ =>
      try_catch (platform_call CallClose (close p)) (fun _ => ret tt);;;
      modify (set_audioContext None);;;
      modify (set_gainNode None)
  | None => ret tt
  end;;;
  modify (set_connectedElements ∅).

(** [getConnectedElementsCount()]. *)
Definition getConnectedElementsCount : M nat :=
  let! w := get in ret (size (connectedElements w)).

(** ** The public operations and the states they reach *)

Inductive Op : Type :=
| EnsureGraph
| IsAvailable
| ShouldBlock (element : Element)
| Connect (element : Element)
| SetGain (volume : Z)
| Untrack (element : Element)
| Reset
| IsOriginBlocked
| MarkOriginBlocked
| ConnectedCount.

(** One call of a public operation, its return value dropped. *)
Definition perform (p : Platform) (o : Op) : M unit :=
  match o with
  | EnsureGraph => initAudioContext p;;; ret tt
  | IsAvailable => isAmplificationAvailable p;;; ret tt
  | ShouldBlock element => shouldBlockAmplification p element;;; ret tt
  | Connect element => tryConnectToAudioContext p element;;; ret tt
  | SetGain volume => setGainValue p volume
  | Untrack element => cleanupAudioSource element
  | Reset => reset p
  | IsOriginBlocked => isSiteBlocked p;;; ret tt
  | MarkOriginBlocked => markSiteAsBlocked p
  | ConnectedCount => getConnectedElementsCount;;; ret tt
  end.

Definition exec (p : Platform) (o : Op) (w : World) : World := snd (perform p o w).

(** The states of a manager: a new manager, on a page whose elements may
    carry markers left by an earlier manager, driven by any sequence of
    operations, the browser answering each call as it pleases. *)
Inductive reachable : World -> Prop :=
| reachable_new (marked : gset nat) (tr : list PlatformCall) :
    reachable (constructor marked tr)
| reachable_step (p : Platform) (o : Op) (w : World) :
    reachable w -> reachable (exec p o w).

(** ** A browser for the examples *)

(** The part of [new URL(s).origin] of the URL Standard that the
    examples use: a [data:] URL has an opaque origin, which serialises as
    the string [null]; a [blob:] URL has the origin of the URL it wraps;
    an [https:] URL has its scheme and host as origin; a string with no
    scheme does not parse. *)
Definition example_URL_origin (s : string) : Completion string :=
  if startsWith s "data:" then Normal "null"
  else if startsWith s "blob:https://example.com/" then Normal "https://example.com"
  else if startsWith s "https://example.com/" then Normal "https://example.com"
  else if startsWith s "https://cdn.example.net/" then Normal "https://cdn.example.net"
  else Throw {| message := "URL constructor: not a valid URL" |}.

(** The page [https://example.com/], in a browser where every Web Audio
    call succeeds. *)
Definition example_page : Platform :=
  {| location_hostname := "example.com";
     location_origin := "https://example.com";
     URL_origin := example_URL_origin;
     new_AudioContext := Normal 1%nat;
     createGain := Normal tt;
     connect_destination := Normal tt;
     createMediaElementSource := fun _ => Normal tt;
     source_connect := fun _ => Normal tt;
     close := Normal tt |}.

Definition with_new_AudioContext (r : Completion nat) (p : Platform) : Platform :=
  {| location_hostname := location_hostname p;
     location_origin := location_origin p;
     URL_origin := URL_origin p;
     new_AudioContext := r;
     createGain := createGain p;
     connect_destination := connect_destination p;
     createMediaElementSource := createMediaElementSource p;
     source_connect := source_connect p;
     close := close p |}.

Definition with_createGain (r : Completion unit) (p : Platform) : Platform :=
  {| location_hostname := location_hostname p;
     location_origin := location_origin p;
     URL_origin := URL_origin p;
     new_AudioContext := new_AudioContext p;
     createGain := r;
     connect_destination := connect_destination p;
     createMediaElementSource := createMediaElementSource p;
     source_connect := source_connect p;
     close := close p |}.

Definition with_createMediaElementSource (r : nat -> Completion unit) (p : Platform) : Platform :=
  {| location_hostname := location_hostname p;
     location_origin := location_origin p;
     URL_origin := URL_origin p;
     new_AudioContext := new_AudioContext p;
     createGain := createGain p;
     connect_destination := connect_destination p;
     createMediaElementSource := r;
     source_connect := source_connect p;
     close := close p |}.

Definition with_close (r : Completion unit) (p : Platform) : Platform :=
  {| location_hostname := location_hostname p;
     location_origin := location_origin p;
     URL_origin := URL_origin p;
     new_AudioContext := new_AudioContext p;
     createGain := createGain p;
     connect_destination := connect_destination p;
     createMediaElementSource := createMediaElementSource p;
     source_connect := source_connect p;
     close := r |}.

(** [<audio src="https://example.com/clip.ogg">], loaded. *)
Definition same_origin_audio : Element :=
  {| el_id := 1; crossOrigin := None;
     src := "https://example.com/clip.ogg";
     currentSrc := "https://example.com/clip.ogg";
     source_src := None |}.

(** [<audio src="data:audio/wav;base64,UklGRg==">], loaded. *)
Definition data_audio : Element :=
  {| el_id := 2; crossOrigin := None;
     src := "data:audio/wav;base64,UklGRg==";
     currentSrc := "data:audio/wav;base64,UklGRg==";
     source_src := None |}.

(** [<video crossorigin="anonymous" src="https://cdn.example.net/a.mp4">]. *)
Definition foreign_video : Element :=
  {| el_id := 3; crossOrigin := Some "anonymous";
     src := "https://cdn.example.net/a.mp4";
     currentSrc := "https://cdn.example.net/a.mp4";
     source_src := None |}.

(** [<video crossorigin="anonymous" src="https://example.com/b.mp4">]. *)
Definition refused_video : Element :=
  {| el_id := 5; crossOrigin := Some "anonymous";
     src := "https://example.com/b.mp4";
     currentSrc := "https://example.com/b.mp4";
     source_src := None |}.

(** [<video crossorigin="anonymous"><source src="https://"></video>]
    before a source is selected; [new URL] rejects the nested URL, which
    has no host. *)
Definition unparsable_video : Element :=
  {| el_id := 4; crossOrigin := Some "anonymous";
     src := ""; currentSrc := "";
     source_src := Some "https://" |}.

(** ** What holds in every state of a manager *)

Record consistent (w : World) : Prop := {
  gain_has_context : gainNode w <> None -> audioContext w <> None;
  tracked_marked : connectedElements w ⊆ audioSource w;
  marked_not_blocked : audioSource w ## blockedElements w
}.

(** A browser of the prefixed generation, reached through the
    [window.webkitAudioContext] fallback: the context is constructed, but
    it has no [createGain] method (the method was called [createGainNode]),
    so the second statement of the [try] block throws a TypeError. *)
Definition legacy_page : Platform :=
  with_createGain
    (Throw {| message := "this.audioContext.createGain is not a function" |})
    example_page.

(** A browser without Web Audio: both constructors are [undefined]. *)
Definition silent_page : Platform :=
  with_new_AudioContext
    (Throw {| message := "(intermediate value) is not a constructor" |})
    example_page.

(** A browser that refuses every binding. *)
Definition refusing_page : Platform :=
  with_createMediaElementSource
    (fun _ => Throw {| message := "MediaElementAudioSource outputs zeroes due to CORS access restrictions" |})
    example_page.

(** A browser where closing the context fails. *)
Definition stuck_page : Platform :=
  with_close (Throw {| message := "InvalidStateError" |}) example_page.

(** A new manager on a page where nothing was routed before. *)
Definition new_world : World := constructor ∅ [].

(** The manager after [initAudioContext()]. *)
Definition graph_world : World := exec example_page EnsureGraph new_world.

(** Then after [tryConnectToAudioContext(same_origin_audio)]. *)
Definition routed_world : World :=
  exec example_page (Connect same_origin_audio) graph_world.

(** Then after a binding of [refused_video] that the browser refuses. *)
Definition refused_world : World :=
  exec refusing_page (Connect refused_video) routed_world.

(** The URLs that [isCrossOriginElement] hands to [new URL]: the
    [currentSrc] of an element without [crossOrigin] attribute, in the
    first test, and in the scan every collected source that the
    [startsWith] tests do not take for a [blob:] or [data:] URL. *)
Definition origin_resolved (element : Element) (s : string) : Prop :=
  (crossOrigin element = None /\ truthy (currentSrc element) = true
   /\ s = currentSrc element)
  \/ (In s (sources_of element)
      /\ startsWith s "blob:" = false /\ startsWith s "data:" = false).

(** The sources that the [startsWith] tests take for self-contained. *)
Definition self_contained (s : string) : Prop :=
  startsWith s "blob:" = true \/ startsWith s "data:" = true.

(** A sequence of public operations, each with the browser it meets. *)
Fixpoint run (script : list (Platform * Op)) (w : World) : World :=
  match script with
  | [] => w
  | (p, o) :: rest => run rest (exec p o w)
  end.

(** The scripts that stay on one page: [reset()] is called on navigation. *)
Definition without_reset (script : list (Platform * Op)) : Prop :=
  Forall (fun step => snd step <> Reset) script.

(** What the operations other than [reset()] can only add to. *)
Record grows (w w' : World) : Prop := {
  grows_marker : audioSource w ⊆ audioSource w';
  grows_blocked : blockedElements w ⊆ blockedElements w';
  grows_context : audioContext w <> None -> audioContext w' <> None;
  grows_gain : gainNode w <> None -> gainNode w' <> None
}.

(** The element [e] is tracked by a manager that has its graph. *)
Definition tracked_in_graph (e : nat) (w : World) : Prop :=
  audioContext w <> None /\ gainNode w <> None /\ e ∈ connectedElements w.

(** The scripts that neither navigate nor untrack the element [e]. *)
Definition keeps_tracking (e : nat) (script : list (Platform * Op)) : Prop :=
  Forall (fun step =>
            snd step <> Reset
            /\ forall x, snd step = Untrack x -> el_id x <> e) script.

(** A source on which the callback of the scan answers [false]: one
    taken for a [blob:] or [data:] URL, or one whose origin is the origin
    of the page. *)
Definition same_origin_source (p : Platform) (s : string) : Prop :=
  self_contained s \/ URL_origin p s = Normal (location_origin p).

(** The first test of [isCrossOriginElement] lets the element through:
    it does not apply, or [currentSrc] has the origin of the page. *)
Definition first_test_passes (p : Platform) (element : Element) : Prop :=
  crossOrigin element = None -> truthy (currentSrc element) = true ->
  URL_origin p (currentSrc element) = Normal (location_origin p).

(** The scripts in which the caller never calls [markSiteAsBlocked()]. *)
Definition without_mark (script : list (Platform * Op)) : Prop :=
  Forall (fun step => snd step <> MarkOriginBlocked) script.

(** The manager after [initAudioContext()] in the browser whose context
    has no [createGain]. *)
Definition half_built_world : World := exec legacy_page EnsureGraph new_world.

(** Shell arithmetic is done in signed 64-bit integers and wraps. *)
Definition wrap64 (z : Z) : Z := (z + 2 ^ 63) mod 2 ^ 64 - 2 ^ 63.

(** The size report of [create-release.sh]: [SIZE] is the byte count
    printed by [stat], read as a 64-bit integer by [$((SIZE / 1024))],
    and the shell division truncates. *)
Inductive SizeText : Type :=
| SizeKB (n : Z)
| SizeMB (n : Z)
| SizeUnknown.

Definition size_text (zip_exists : bool) (SIZE : Z) : SizeText :=
  if zip_exists then
    let SIZE_KB := Z.quot (wrap64 SIZE) 1024 in
    if Z.gtb SIZE_KB 1024 then
      let SIZE_MB := Z.quot SIZE_KB 1024 in
      SizeMB SIZE_MB
    else SizeKB SIZE_KB
  else SizeUnknown.

(** ["${SIZE_MB} MB"], ["${SIZE_KB} KB"] or ["unknown"]. *)
Definition render_size_text (t : SizeText) : string :=
  match t with
  | SizeKB n => DecimalString.NilZero.string_of_int (Z.to_int n) ++ " KB"
  | SizeMB n => DecimalString.NilZero.string_of_int (Z.to_int n) ++ " MB"
  | SizeUnknown => "unknown"
  end.

(** The state with the trace of Web Audio calls replaced. *)
Definition set_calls (l : list PlatformCall) (w : World) : World :=
  {| audioContext := audioContext w; gainNode := gainNode w;
     connectedElements := connectedElements w;
     blockedSites := blockedSites w;
     blockedElements := blockedElements w;
     audioSource := audioSource w;
     calls := l |}.

(** The manager has both parts of its graph. *)
Definition has_graph (w : World) : Prop :=
  audioContext w <> None /\ gainNode w <> None.

(** The six ways through [tryConnectToAudioContext(element)], each with
    what the call returns and the state it leaves. *)
Inductive connect_case (p : Platform) (element : Element) (w : World) :
    Completion bool * World -> Prop :=
| connect_no_graph :
    ~ has_graph w ->
    connect_case p element w (Normal false, w)
| connect_tracked :
    has_graph w -> el_id element ∈ connectedElements w ->
    connect_case p element w (Normal true, w)
| connect_marked :
    has_graph w -> el_id element ∉ connectedElements w ->
    el_id element ∈ audioSource w ->
    connect_case p element w
      (Normal true,
       set_connectedElements ({[ el_id element ]} ∪ connectedElements w) w)
| connect_turned_away :
    has_graph w -> el_id element ∉ connectedElements w ->
    el_id element ∉ audioSource w ->
    shouldBlockAmplification p element w = (Normal true, w) ->
    connect_case p element w (Normal false, w)
| connect_bound :
    has_graph w -> el_id element ∉ connectedElements w ->
    el_id element ∉ audioSource w ->
    shouldBlockAmplification p element w = (Normal false, w) ->
    createMediaElementSource p (el_id element) = Normal tt ->
    source_connect p (el_id element) = Normal tt ->
    connect_case p element w
      (Normal true,
       set_audioSource ({[ el_id element ]} ∪ audioSource w)
         (set_connectedElements ({[ el_id element ]} ∪ connectedElements w)
            (set_calls (calls w ++ [CallCreateMediaElementSource (el_id element);
                                    CallSourceConnect (el_id element)]) w)))
| connect_refused (tried : list PlatformCall) :
    has_graph w -> el_id element ∉ connectedElements w ->
    el_id element ∉ audioSource w ->
    shouldBlockAmplification p element w = (Normal false, w) ->
    (exists e, createMediaElementSource p (el_id element) = Throw e
               /\ tried = [CallCreateMediaElementSource (el_id element)])
    \/ (exists e, createMediaElementSource p (el_id element) = Normal tt
                  /\ source_connect p (el_id element) = Throw e
                  /\ tried = [CallCreateMediaElementSource (el_id element);
                              CallSourceConnect (el_id element)]) ->
    connect_case p element w
      (Normal false,
       set_blockedElements ({[ el_id element ]} ∪ blockedElements w)
         (set_calls (calls w ++ tried) w)).

(** A call returned [true]. *)
Definition returned_true (r : Completion bool) : bool :=
  match r with
  | Normal true => true
  | _ => false
  end.



(** ** Proof tools *)

Ltac unfold_monad :=
  unfold bind, ret, get, modify, try_catch, platform_call, pure_call in *;
  cbv beta iota in *.

Ltac unfold_setters :=
  unfold set_audioContext, set_gainNode, set_graph, set_connectedElements,
    set_blockedSites, set_blockedElements, set_audioSource in *.

(** ** The cross-origin check reads and never throws *)

Lemma source_is_foreign_state p o s w :
  snd (source_is_foreign p o s w) = w.
Proof.
  unfold source_is_foreign.
  destruct (startsWith s "blob:"); [reflexivity|].
  destruct (startsWith s "data:"); [reflexivity|].
  unfold_monad. destruct (URL_origin p s); reflexivity.
Qed.

Lemma array_some_state {A} (f : A -> M bool) l w :
  (forall x w0, snd (f x w0) = w0) -> snd (array_some f l w) = w.
Proof.
  intros Hf. induction l as [|x l IH]; simpl; [reflexivity|].
  unfold bind. specialize (Hf x w).
  destruct (f x w) as [[b|e] w1]; simpl in Hf; subst w1; [|reflexivity].
  destruct b; [reflexivity|exact IH].
Qed.

Lemma isCrossOriginElement_pure p element w :
  exists b, isCrossOriginElement p element w = (Normal b, w).
Proof.
  unfold isCrossOriginElement.
  assert (Hscan : exists b,
    (if Nat.eqb (length (sources_of element)) 0 then ret false
     else try_catch
            (array_some (source_is_foreign p (location_origin p)) (sources_of element))
            (fun _ => ret true)) w = (Normal b, w)).
  { destruct (Nat.eqb _ 0); [eexists; reflexivity|].
    unfold try_catch.
    pose proof (array_some_state (source_is_foreign p (location_origin p))
                  (sources_of element) w (source_is_foreign_state p _)) as Hs.
    destruct (array_some _ _ w) as [[b|e] w1]; simpl in Hs; subst w1;
      eexists; reflexivity. }
  destruct Hscan as [b Hscan].
  destruct (crossOrigin element).
  - unfold bind at 1. unfold ret at 1. eexists; exact Hscan.
  - destruct (truthy (currentSrc element)).
    + unfold bind at 1. unfold try_catch, bind, pure_call.
      destruct (URL_origin p (currentSrc element)) as [o|e].
      * destruct (negb (String.eqb o (location_origin p))).
        -- eexists; reflexivity.
        -- eexists; exact Hscan.
      * eexists; reflexivity.
    + unfold bind at 1. unfold ret at 1. eexists; exact Hscan.
Qed.

Lemma shouldBlockAmplification_pure p element w :
  exists b, shouldBlockAmplification p element w = (Normal b, w).
Proof.
  unfold shouldBlockAmplification, bind, get.
  destruct (has (blockedElements w) (el_id element)).
  - eexists; reflexivity.
  - apply isCrossOriginElement_pure.
Qed.

Lemma shouldBlockAmplification_blocked p element w :
  el_id element ∈ blockedElements w ->
  shouldBlockAmplification p element w = (Normal true, w).
Proof.
  intros Hin. unfold shouldBlockAmplification, bind, get, has.
  rewrite bool_decide_eq_true_2 by exact Hin. reflexivity.
Qed.

Lemma shouldBlockAmplification_false p element w w' :
  shouldBlockAmplification p element w = (Normal false, w') ->
  el_id element ∉ blockedElements w.
Proof.
  intros Hrun Hin.
  rewrite (shouldBlockAmplification_blocked p element w Hin) in Hrun.
  discriminate.
Qed.

Lemma constructor_consistent marked tr : consistent (constructor marked tr).
Proof. split; simpl; [congruence|set_solver|set_solver]. Qed.

Lemma initAudioContext_consistent p w :
  consistent w -> consistent (snd (initAudioContext p w)).
Proof.
  intros [Hg Ht Hm]. unfold initAudioContext. unfold_monad.
  destruct (audioContext w) eqn:Hc; simpl; [split; auto; congruence|].
  destruct (new_AudioContext p), (createGain p), (connect_destination p); simpl;
    split; simpl; auto; try congruence.
  all: rewrite Hc; exact Hg.
Qed.

Lemma tryConnectToAudioContext_consistent p element w :
  consistent w -> consistent (snd (tryConnectToAudioContext p element w)).
Proof.
  intros Hw. pose proof Hw as [Hg Ht Hm].
  unfold tryConnectToAudioContext. unfold bind at 1. unfold get at 1.
  destruct (audioContext w) eqn:Hc; [|exact Hw].
  destruct (gainNode w) eqn:Hn; [|exact Hw].
  unfold has at 1. case_bool_decide as Htracked; [exact Hw|].
  unfold has at 1. case_bool_decide as Hmarked.
  { unfold_monad. unfold_setters. simpl.
    split; simpl; [congruence|set_solver|exact Hm]. }
  unfold bind at 1.
  destruct (shouldBlockAmplification_pure p element w) as [b Hb].
  rewrite Hb. destruct b; [exact Hw|].
  apply shouldBlockAmplification_false in Hb.
  unfold_monad. unfold_setters.
  destruct (createMediaElementSource p (el_id element)); simpl.
  - destruct (source_connect p (el_id element)); simpl;
      split; simpl; try congruence; set_solver.
  - split; simpl; try congruence; set_solver.
Qed.

Lemma reset_consistent p w :
  consistent w -> consistent (snd (reset p w)).
Proof.
  intros [Hg Ht Hm]. unfold reset. unfold_monad. unfold_setters. simpl.
  destruct (audioContext w) eqn:Hc; simpl.
  - destruct (close p); simpl; split; simpl; try congruence; set_solver.
  - split; simpl; [exact Hg|set_solver|set_solver].
Qed.

Lemma setGainValue_consistent p volume w :
  consistent w -> consistent (snd (setGainValue p volume w)).
Proof.
  intros Hw. pose proof Hw as [Hg Ht Hm].
  unfold setGainValue, isSiteBlocked. unfold_monad. unfold_setters.
  destruct (gainNode w) eqn:Hn; [|exact Hw].
  destruct (negb _ && _)%bool; [|exact Hw].
  split; simpl; auto.
Qed.

Lemma isAmplificationAvailable_consistent p w :
  consistent w -> consistent (snd (isAmplificationAvailable p w)).
Proof.
  intros Hw. unfold isAmplificationAvailable, isSiteBlocked.
  unfold bind at 1 2. unfold get at 1. unfold ret at 1.
  destruct (negb _); [|exact Hw].
  unfold bind at 1. unfold get at 1.
  destruct (audioContext w) eqn:Hc; [exact Hw|].
  apply initAudioContext_consistent, Hw.
Qed.

Lemma exec_consistent p o w : consistent w -> consistent (exec p o w).
Proof.
  intros Hw. unfold exec. destruct o; simpl.
  - pose proof (initAudioContext_consistent p w Hw) as H.
    unfold bind. destruct (initAudioContext p w) as [[b|e] w1]; exact H.
  - pose proof (isAmplificationAvailable_consistent p w Hw) as H.
    unfold bind. destruct (isAmplificationAvailable p w) as [[b|e] w1]; exact H.
  - destruct (shouldBlockAmplification_pure p element w) as [b Hb].
    unfold bind. rewrite Hb. exact Hw.
  - pose proof (tryConnectToAudioContext_consistent p element w Hw) as H.
    unfold bind. destruct (tryConnectToAudioContext p element w) as [[b|e] w1]; exact H.
  - apply setGainValue_consistent, Hw.
  - destruct Hw as [Hg Ht Hm]. unfold cleanupAudioSource. unfold_monad. unfold_setters.
    split; simpl; [exact Hg|set_solver|exact Hm].
  - apply reset_consistent, Hw.
  - exact Hw.
  - destruct Hw as [Hg Ht Hm]. unfold markSiteAsBlocked. unfold_monad. unfold_setters.
    split; simpl; assumption.
  - exact Hw.
Qed.

Lemma reachable_consistent w : reachable w -> consistent w.
Proof.
  induction 1 as [marked tr|p o w _ IH].
  - apply constructor_consistent.
  - apply exec_consistent, IH.
Qed.

Lemma initAudioContext_returns p w :
  exists b w', initAudioContext p w = (Normal b, w').
Proof.
  unfold initAudioContext. unfold_monad.
  destruct (audioContext w); [do 2 eexists; reflexivity|].
  destruct (new_AudioContext p), (createGain p), (connect_destination p);
    do 2 eexists; reflexivity.
Qed.

(** No public operation lets an exception escape. *)
Lemma perform_returns p o w : exists w', perform p o w = (Normal tt, w').
Proof.
  destruct o; simpl.
  - destruct (initAudioContext_returns p w) as (b & w' & Hrun).
    unfold bind. rewrite Hrun. eexists; reflexivity.
  - unfold isAmplificationAvailable, isSiteBlocked.
    unfold bind at 1 2 3. unfold get at 1. unfold ret at 1.
    destruct (negb _); [|eexists; reflexivity].
    unfold bind, get.
    destruct (audioContext w); [eexists; reflexivity|].
    destruct (initAudioContext_returns p w) as (b & w' & Hrun).
    rewrite Hrun. eexists; reflexivity.
  - destruct (shouldBlockAmplification_pure p element w) as [b Hb].
    unfold bind. rewrite Hb. eexists; reflexivity.
  - unfold tryConnectToAudioContext. unfold bind at 1 2. unfold get at 1.
    destruct (audioContext w); [|eexists; reflexivity].
    destruct (gainNode w); [|eexists; reflexivity].
    destruct (has (connectedElements w) _); [eexists; reflexivity|].
    destruct (has (audioSource w) _); [eexists; reflexivity|].
    unfold bind at 1.
    destruct (shouldBlockAmplification_pure p element w) as [b Hb].
    rewrite Hb. destruct b; [eexists; reflexivity|].
    unfold_monad.
    destruct (createMediaElementSource p _); [|eexists; reflexivity].
    destruct (source_connect p _); eexists; reflexivity.
  - unfold setGainValue, isSiteBlocked. unfold_monad.
    destruct (gainNode w); [|eexists; reflexivity].
    destruct (negb _ && _)%bool; eexists; reflexivity.
  - eexists; reflexivity.
  - unfold reset. unfold_monad. simpl.
    destruct (audioContext w); [|eexists; reflexivity].
    destruct (close p); eexists; reflexivity.
  - eexists; reflexivity.
  - eexists; reflexivity.
  - eexists; reflexivity.
Qed.

(** ** Gain application *)







(** ** Graph initialisation *)

Lemma initAudioContext_existing p w c :
  audioContext w = Some c -> initAudioContext p w = (Normal true, w).
Proof.
  intros Hc. unfold initAudioContext. unfold_monad. rewrite Hc. reflexivity.
Qed.

Lemma initAudioContext_unavailable p w e :
  audioContext w = None -> new_AudioContext p = Throw e ->
  exists w', initAudioContext p w = (Normal false, w')
    /\ audioContext w' = None /\ gainNode w' = gainNode w
    /\ connectedElements w' = connectedElements w
    /\ blockedSites w' = blockedSites w
    /\ blockedElements w' = blockedElements w
    /\ audioSource w' = audioSource w.
Proof.
  intros Hc Hnew. unfold initAudioContext. unfold_monad. rewrite Hc, Hnew.
  eexists; split; [reflexivity|]. simpl. rewrite Hc. repeat split.
Qed.

Lemma initAudioContext_constructed p w c :
  audioContext w = None -> new_AudioContext p = Normal c ->
  createGain p = Normal tt -> connect_destination p = Normal tt ->
  exists w', initAudioContext p w = (Normal true, w')
    /\ audioContext w' = Some c /\ gainNode w' = Some {| gain_value := 1%float |}.
Proof.
  intros Hc Hnew Hgain Hconn. unfold initAudioContext. unfold_monad.
  rewrite Hc, Hnew, Hgain, Hconn. eexists; split; [reflexivity|]. split; reflexivity.
Qed.

(** C3: [initAudioContext()] at the point where the claim breaks.  In a
    browser whose context has no [createGain], the call on a new manager
    returns [false] but keeps the context it has just constructed, while
    the gain node stays [null]; every later call then returns [true]
    without constructing anything, whatever the browser. *)
Theorem initAudioContext_keeps_half_built_graph :
  exists w',
    initAudioContext legacy_page new_world = (Normal false, w')
    /\ audioContext new_world = None /\ gainNode new_world = None
    /\ audioContext w' = Some 1%nat /\ gainNode w' = None
    /\ forall p, initAudioContext p w' = (Normal true, w').
Proof.
  eexists. split; [reflexivity|]. repeat split.
Qed.

(** C4: a state reached from a new manager by one [initAudioContext()]
    in which the context reference is set and the gain node reference is
    [null]. *)
Theorem context_without_gain_reachable :
  reachable (exec legacy_page EnsureGraph new_world)
  /\ audioContext (exec legacy_page EnsureGraph new_world) = Some 1%nat
  /\ gainNode (exec legacy_page EnsureGraph new_world) = None.
Proof.
  split; [|split; reflexivity].
  apply reachable_step. apply reachable_new.
Qed.

(** One direction of the invariant holds in every state: a manager that
    has a gain node has a context. *)
Lemma gain_implies_context w :
  reachable w -> gainNode w <> None -> audioContext w <> None.
Proof. intros Hw. apply (gain_has_context w (reachable_consistent w Hw)). Qed.

(** ** Tracked and blocked elements *)

(** C8: in every state reached from a new manager by the public
    operations, no element is both in [connectedElements] and in
    [blockedElements]. *)
Theorem tracked_never_blocked (w : World) (e : nat) :
  reachable w -> ~ (e ∈ connectedElements w /\ e ∈ blockedElements w).
Proof.
  intros Hw [Ht Hb]. destruct (reachable_consistent w Hw) as [_ Hsub Hdisj].
  set_solver.
Qed.

Lemma tracked_never_blocked_witness :
  reachable refused_world
  /\ 1%nat ∈ connectedElements refused_world
  /\ 5%nat ∈ blockedElements refused_world
  /\ ~ (1%nat ∈ connectedElements refused_world /\ 1%nat ∈ blockedElements refused_world).
Proof.
  assert (Hreach : reachable refused_world).
  { repeat apply reachable_step. apply reachable_new. }
  split; [exact Hreach|].
  split; [apply (bool_decide_eq_true_1 (1%nat ∈ connectedElements refused_world)); reflexivity|].
  split; [apply (bool_decide_eq_true_1 (5%nat ∈ blockedElements refused_world)); reflexivity|].
  exact (tracked_never_blocked refused_world 1%nat Hreach).
Defined.

(** ** The cross-origin check *)

Lemma source_is_foreign_throws p o s e w :
  startsWith s "blob:" = false -> startsWith s "data:" = false ->
  URL_origin p s = Throw e ->
  source_is_foreign p o s w = (Throw e, w).
Proof.
  intros Hb Hd Hu. unfold source_is_foreign. rewrite Hb, Hd.
  unfold_monad. rewrite Hu. reflexivity.
Qed.

Lemma scan_unparsable p o l s e w :
  In s l ->
  startsWith s "blob:" = false -> startsWith s "data:" = false ->
  URL_origin p s = Throw e ->
  try_catch (array_some (source_is_foreign p o) l) (fun _ => ret true) w
  = (Normal true, w).
Proof.
  intros Hin Hb Hd Hu.
  induction l as [|x l IH]; [destruct Hin|].
  unfold try_catch in *. simpl. unfold bind.
  pose proof (source_is_foreign_state p o x w) as Hst.
  destruct (source_is_foreign p o x w) as [[b|e'] w1] eqn:Hx;
    simpl in Hst; subst w1; [|reflexivity].
  destruct b; [reflexivity|].
  destruct Hin as [->|Hin].
  - rewrite (source_is_foreign_throws p o s e w Hb Hd Hu) in Hx. discriminate.
  - apply IH, Hin.
Qed.

Lemma scan_self_contained p o l w :
  Forall self_contained l ->
  array_some (source_is_foreign p o) l w = (Normal false, w).
Proof.
  induction 1 as [|x l Hx _ IH]; [reflexivity|].
  simpl. unfold bind, source_is_foreign.
  destruct (startsWith x "blob:") eqn:Hb; [exact IH|].
  destruct Hx as [Hx|Hx]; [congruence|]. rewrite Hx. exact IH.
Qed.

Lemma sources_nonempty element s :
  In s (sources_of element) -> Nat.eqb (length (sources_of element)) 0 = false.
Proof.
  intros Hin. destruct (sources_of element); [destruct Hin|reflexivity].
Qed.

(** C5: if [new URL] throws on one of the URLs whose origin
    [isCrossOriginElement] resolves, the check returns [true]. *)
Theorem unparsable_source_is_cross_origin
    (p : Platform) (element : Element) (w : World) (s : string) (e : Exn) :
  origin_resolved element s ->
  URL_origin p s = Throw e ->
  isCrossOriginElement p element w = (Normal true, w).
Proof.
  intros Hres Hthrow. unfold isCrossOriginElement.
  destruct Hres as [(Hco & Htr & ->)|(Hin & Hb & Hd)].
  - rewrite Hco, Htr. unfold_monad. rewrite Hthrow. reflexivity.
  - assert (Hscan :
      (if Nat.eqb (length (sources_of element)) 0 then ret false
       else try_catch
              (array_some (source_is_foreign p (location_origin p)) (sources_of element))
              (fun _ => ret true)) w = (Normal true, w)).
    { rewrite (sources_nonempty element s Hin).
      apply (scan_unparsable p _ _ s e w Hin Hb Hd Hthrow). }
    destruct (crossOrigin element).
    + unfold bind at 1. unfold ret at 1. exact Hscan.
    + destruct (truthy (currentSrc element)).
      * unfold bind at 1. unfold try_catch, bind, pure_call.
        destruct (URL_origin p (currentSrc element)) as [o|e'].
        -- destruct (negb (String.eqb o (location_origin p))).
           ++ reflexivity.
           ++ exact Hscan.
        -- reflexivity.
      * unfold bind at 1. unfold ret at 1. exact Hscan.
Qed.

Lemma unparsable_source_is_cross_origin_witness :
  origin_resolved unparsable_video "https://"
  /\ isCrossOriginElement example_page unparsable_video new_world
     = (Normal true, new_world).
Proof.
  assert (Hres : origin_resolved unparsable_video "https://").
  { right. split; [left; reflexivity|split; reflexivity]. }
  split; [exact Hres|].
  exact (unparsable_source_is_cross_origin example_page unparsable_video new_world
           "https://" _ Hres eq_refl).
Defined.

(** The scan does what its comments say: when the first test does not
    decide, an element whose sources are all taken for [blob:] or [data:]
    URLs is not cross-origin. *)
Lemma self_contained_sources_pass_scan p element w :
  crossOrigin element <> None \/ currentSrc element = ""
    \/ URL_origin p (currentSrc element) = Normal (location_origin p) ->
  Forall self_contained (sources_of element) ->
  isCrossOriginElement p element w = (Normal false, w).
Proof.
  intros Hfirst Hall. unfold isCrossOriginElement.
  assert (Hscan :
    (if Nat.eqb (length (sources_of element)) 0 then ret false
     else try_catch
            (array_some (source_is_foreign p (location_origin p)) (sources_of element))
            (fun _ => ret true)) w = (Normal false, w)).
  { destruct (Nat.eqb _ 0); [reflexivity|].
    unfold try_catch. rewrite (scan_self_contained p _ _ w Hall). reflexivity. }
  destruct (crossOrigin element) eqn:Hco.
  - unfold bind at 1. unfold ret at 1. exact Hscan.
  - destruct Hfirst as [Hset|[Hempty|Hsame]]; [congruence| |].
    + rewrite Hempty. simpl truthy. unfold bind at 1. unfold ret at 1. exact Hscan.
    + destruct (truthy (currentSrc element)).
      * unfold bind at 1. unfold try_catch, bind, pure_call. rewrite Hsame.
        rewrite String.eqb_refl. simpl negb. unfold ret at 1. exact Hscan.
      * unfold bind at 1. unfold ret at 1. exact Hscan.
Qed.

(** C2: the check at the point where the claim breaks.  An [audio]
    element without [crossorigin] attribute whose every source is one
    [data:] URL: the first test resolves the origin of that URL, finds the
    opaque origin [null], which is not the origin of the page, and the
    check returns [true]. *)
Theorem data_url_reported_cross_origin :
  Forall self_contained (sources_of data_audio)
  /\ crossOrigin data_audio = None
  /\ URL_origin example_page (currentSrc data_audio) = Normal "null"
  /\ isCrossOriginElement example_page data_audio new_world
     = (Normal true, new_world).
Proof.
  split; [|repeat split].
  repeat constructor; right; reflexivity.
Qed.

(** ** The block decision *)

(** C10: [shouldBlockAmplification(element)] returns a boolean and
    leaves the state as it found it (the manager's sets and graph
    references, the markers and the trace of Web Audio calls), so two
    calls in a row on the same element return the same boolean. *)
Theorem shouldBlockAmplification_reads_only
    (p : Platform) (element : Element) (w : World) :
  exists b,
    shouldBlockAmplification p element w = (Normal b, w)
    /\ (let! first := shouldBlockAmplification p element in
        let! second := shouldBlockAmplification p element in
        ret (first, second)) w = (Normal (b, b), w).
Proof.
  destruct (shouldBlockAmplification_pure p element w) as [b Hb].
  exists b. split; [exact Hb|].
  unfold bind. rewrite Hb, Hb. reflexivity.
Qed.

(** ** Connection *)

Lemma tryConnectToAudioContext_tracked p element w c g :
  audioContext w = Some c -> gainNode w = Some g ->
  el_id element ∈ connectedElements w ->
  tryConnectToAudioContext p element w = (Normal true, w).
Proof.
  intros Hc Hg Hin. unfold tryConnectToAudioContext.
  unfold bind at 1. unfold get at 1. rewrite Hc, Hg.
  unfold has. rewrite bool_decide_eq_true_2 by exact Hin. reflexivity.
Qed.

Lemma tryConnectToAudioContext_true p element w w1 :
  tryConnectToAudioContext p element w = (Normal true, w1) ->
  audioContext w1 <> None /\ gainNode w1 <> None
  /\ el_id element ∈ connectedElements w1.
Proof.
  unfold tryConnectToAudioContext. unfold bind at 1. unfold get at 1.
  destruct (audioContext w) eqn:Hc; [|discriminate].
  destruct (gainNode w) eqn:Hg; [|discriminate].
  unfold has at 1. case_bool_decide as Htracked.
  { intros [= <-]. rewrite Hc, Hg. repeat split; congruence. }
  unfold has at 1. case_bool_decide as Hmarked.
  { unfold_monad. unfold_setters. intros [= <-]. simpl.
    rewrite Hc, Hg. repeat split; try congruence. set_solver. }
  unfold bind at 1.
  destruct (shouldBlockAmplification_pure p element w) as [b Hb].
  rewrite Hb. destruct b; [discriminate|].
  unfold_monad. unfold_setters.
  destruct (createMediaElementSource p (el_id element)); [|discriminate].
  destruct (source_connect p (el_id element)); [|discriminate].
  intros [= <-]. simpl. rewrite Hc, Hg. repeat split; try congruence. set_solver.
Qed.

(** What an operation other than [reset()] keeps. *)
Ltac close_grows :=
  unfold_monad; unfold_setters;
  split;
  [ split; simpl; first [ assumption | congruence | set_solver ]
  | intros; simpl; first [ assumption | set_solver ] ].

Lemma exec_grows p o w :
  o <> Reset ->
  grows w (exec p o w)
  /\ forall e, (forall x, o = Untrack x -> el_id x <> e) ->
       e ∈ connectedElements w -> e ∈ connectedElements (exec p o w).
Proof.
  intros Hno. unfold exec. destruct o; simpl; try congruence.
  - unfold initAudioContext. unfold_monad. unfold_setters.
    destruct (audioContext w) eqn:Hc; [close_grows|].
    destruct (new_AudioContext p), (createGain p), (connect_destination p);
      close_grows.
  - unfold isAmplificationAvailable, isSiteBlocked. unfold_monad.
    destruct (negb (has (blockedSites w) _)); [|close_grows].
    destruct (audioContext w) eqn:Hc; [close_grows|].
    unfold initAudioContext. unfold_monad. unfold_setters. rewrite Hc.
    destruct (new_AudioContext p), (createGain p), (connect_destination p);
      close_grows.
  - destruct (shouldBlockAmplification_pure p element w) as [b Hb].
    unfold bind. rewrite Hb. close_grows.
  - destruct (shouldBlockAmplification_pure p element w) as [b Hb].
    unfold tryConnectToAudioContext. unfold_monad. unfold_setters.
    destruct (audioContext w) eqn:Hc; [|close_grows].
    destruct (gainNode w) eqn:Hg; [|close_grows].
    destruct (has (connectedElements w) _); [close_grows|].
    destruct (has (audioSource w) _); [close_grows|].
    rewrite Hb. destruct b; [close_grows|].
    destruct (createMediaElementSource p _); [|close_grows].
    destruct (source_connect p _); close_grows.
  - unfold setGainValue, isSiteBlocked. unfold_monad. unfold_setters.
    destruct (gainNode w) eqn:Hg; [|close_grows].
    destruct (negb _ && _)%bool; close_grows.
  - split; [split; simpl; first [assumption|congruence|set_solver]|].
    intros e Hx Hin. specialize (Hx element eq_refl). simpl. set_solver.
  - close_grows.
  - close_grows.
  - close_grows.
Qed.

(** No operation, [reset()] included, removes a marker. *)
Lemma exec_keeps_marker p o w : audioSource w ⊆ audioSource (exec p o w).
Proof.
  assert (Hcases : o = Reset \/ o <> Reset)
    by (destruct o; first [left; reflexivity | right; discriminate]).
  destruct Hcases as [->|Hno].
  - unfold exec, perform, reset. unfold_monad. unfold_setters. simpl.
    destruct (audioContext w); [destruct (close p)|]; simpl; set_solver.
  - apply (grows_marker _ _ (proj1 (exec_grows p o w Hno))).
Qed.

Lemma run_keeps_marker script w : audioSource w ⊆ audioSource (run script w).
Proof.
  revert w. induction script as [|[p o] rest IH]; intros w; simpl.
  - set_solver.
  - pose proof (exec_keeps_marker p o w). pose proof (IH (exec p o w)). set_solver.
Qed.

(** Outside [reset()], a blocked element stays blocked. *)
Lemma run_keeps_blocked script w e :
  without_reset script -> e ∈ blockedElements w -> e ∈ blockedElements (run script w).
Proof.
  intros Hno. revert w. induction Hno as [|[p o] rest Ho _ IH]; intros w Hin.
  - exact Hin.
  - simpl. apply IH. simpl in Ho.
    pose proof (grows_blocked _ _ (proj1 (exec_grows p o w Ho))). set_solver.
Qed.

(** Outside [reset()] and [cleanupAudioSource] of that element, a tracked
    element of a manager with a graph stays tracked, and the graph stays. *)
Lemma run_keeps_tracked script w e :
  keeps_tracking e script -> tracked_in_graph e w -> tracked_in_graph e (run script w).
Proof.
  intros Hkeep. revert w.
  induction Hkeep as [|[p o] rest [Ho Hun] _ IH]; intros w (Hc & Hg & Hin).
  - repeat split; assumption.
  - simpl. apply IH. simpl in Ho, Hun.
    destruct (exec_grows p o w Ho) as [[_ _ Hctx Hgain] Htracked].
    repeat split; auto.
Qed.

(** C9: once [tryConnectToAudioContext(element)] has returned [true],
    a further call on the same element returns [true] and leaves the whole
    state as it is: [connectedElements] keeps its size and no Web Audio
    call is made, whatever the browser would answer and whatever the
    sources of the element are by then.  This holds for the next call and
    after any operations in between other than [reset()] and
    [cleanupAudioSource] of that element. *)
Theorem connect_twice
    (p : Platform) (element : Element) (w w1 : World) :
  tryConnectToAudioContext p element w = (Normal true, w1) ->
  forall (script : list (Platform * Op)) (p' : Platform) (element' : Element),
    keeps_tracking (el_id element) script ->
    el_id element' = el_id element ->
    exists w2,
      tryConnectToAudioContext p' element' (run script w1) = (Normal true, w2)
      /\ size (connectedElements w2) = size (connectedElements (run script w1))
      /\ calls w2 = calls (run script w1)
      /\ w2 = run script w1.
Proof.
  intros Hfirst script p' element' Hkeep Hid.
  pose proof (tryConnectToAudioContext_true p element w w1 Hfirst) as Htracked.
  destruct (run_keeps_tracked script w1 (el_id element) Hkeep Htracked)
    as (Hc & Hg & Hin).
  destruct (audioContext (run script w1)) as [c|] eqn:Ec; [|congruence].
  destruct (gainNode (run script w1)) as [g|] eqn:Eg; [|congruence].
  exists (run script w1). rewrite <- Hid in Hin.
  rewrite (tryConnectToAudioContext_tracked p' element' _ c g Ec Eg Hin).
  repeat split.
Qed.

Lemma connect_twice_witness :
  tryConnectToAudioContext example_page same_origin_audio graph_world
  = (Normal true, routed_world)
  /\ exists w2,
      tryConnectToAudioContext refusing_page same_origin_audio
        (run [(example_page, SetGain 250)] routed_world) = (Normal true, w2)
      /\ size (connectedElements w2)
         = size (connectedElements (run [(example_page, SetGain 250)] routed_world))
      /\ calls w2 = calls (run [(example_page, SetGain 250)] routed_world)
      /\ w2 = run [(example_page, SetGain 250)] routed_world.
Proof.
  assert (Hfirst : tryConnectToAudioContext example_page same_origin_audio graph_world
                   = (Normal true, routed_world)) by reflexivity.
  split; [exact Hfirst|].
  apply (connect_twice example_page same_origin_audio graph_world routed_world
           Hfirst [(example_page, SetGain 250)] refusing_page same_origin_audio).
  - repeat constructor; simpl; discriminate.
  - reflexivity.
Defined.

(** A blocked element is never handed to [createMediaElementSource]. *)
Lemma tryConnectToAudioContext_blocked p element w :
  el_id element ∈ blockedElements w ->
  calls (snd (tryConnectToAudioContext p element w)) = calls w.
Proof.
  intros Hin. unfold tryConnectToAudioContext. unfold bind at 1. unfold get at 1.
  destruct (audioContext w); [|reflexivity].
  destruct (gainNode w); [|reflexivity].
  destruct (has (connectedElements w) _); [reflexivity|].
  destruct (has (audioSource w) _); [reflexivity|].
  unfold bind at 1.
  rewrite (shouldBlockAmplification_blocked p element w Hin). reflexivity.
Qed.

(** C7: when [tryConnectToAudioContext(element)] reaches the binding
    (the graph exists, the element is neither tracked nor marked nor
    blocked) and [createMediaElementSource] or [source.connect] throws,
    the call returns [false], the element joins [blockedElements],
    [connectedElements] and [blockedSites] keep their value, and from then
    on, until a [reset()], [shouldBlockAmplification] returns [true] for
    the element and a further call makes no Web Audio call. *)
Theorem binding_failure_blocks_element_only
    (p : Platform) (element : Element) (w : World)
    (c : nat) (g : GainNode) (e : Exn) :
  audioContext w = Some c -> gainNode w = Some g ->
  el_id element ∉ connectedElements w ->
  el_id element ∉ audioSource w ->
  shouldBlockAmplification p element w = (Normal false, w) ->
  (createMediaElementSource p (el_id element) = Throw e
   \/ (createMediaElementSource p (el_id element) = Normal tt
       /\ source_connect p (el_id element) = Throw e)) ->
  exists w',
    tryConnectToAudioContext p element w = (Normal false, w')
    /\ blockedElements w' = {[ el_id element ]} ∪ blockedElements w
    /\ connectedElements w' = connectedElements w
    /\ blockedSites w' = blockedSites w
    /\ forall (script : list (Platform * Op)) (p' : Platform) (element' : Element),
         without_reset script ->
         el_id element' = el_id element ->
         shouldBlockAmplification p' element' (run script w')
         = (Normal true, run script w')
         /\ calls (snd (tryConnectToAudioContext p' element' (run script w')))
            = calls (run script w').
Proof.
  intros Hc Hg Htracked Hmarked Hblock Hthrow.
  assert (Hrun : exists w',
    tryConnectToAudioContext p element w = (Normal false, w')
    /\ blockedElements w' = {[ el_id element ]} ∪ blockedElements w
    /\ connectedElements w' = connectedElements w
    /\ blockedSites w' = blockedSites w).
  { unfold tryConnectToAudioContext. unfold bind at 1. unfold get at 1.
    rewrite Hc, Hg. unfold has.
    rewrite (bool_decide_eq_false_2 _ Htracked), (bool_decide_eq_false_2 _ Hmarked).
    unfold bind at 1. rewrite Hblock.
    unfold_monad. unfold_setters.
    destruct Hthrow as [Hsrc|[Hsrc Hconn]].
    - rewrite Hsrc. eexists; repeat split.
    - rewrite Hsrc, Hconn. eexists; repeat split. }
  destruct Hrun as (w' & Hret & Hblocked & Hconnected & Hsites).
  exists w'. repeat split; try assumption.
  - apply shouldBlockAmplification_blocked. apply run_keeps_blocked; [assumption|].
    rewrite Hblocked. set_solver.
  - apply tryConnectToAudioContext_blocked. apply run_keeps_blocked; [assumption|].
    rewrite Hblocked. set_solver.
Qed.

Lemma binding_failure_blocks_element_only_witness :
  exists w',
    tryConnectToAudioContext refusing_page same_origin_audio graph_world
    = (Normal false, w')
    /\ blockedElements w' = {[ 1%nat ]} ∪ blockedElements graph_world
    /\ connectedElements w' = connectedElements graph_world
    /\ blockedSites w' = blockedSites graph_world
    /\ shouldBlockAmplification example_page same_origin_audio
         (run [(example_page, SetGain 150)] w')
       = (Normal true, run [(example_page, SetGain 150)] w').
Proof.
  assert (Hnot1 : 1%nat ∉ connectedElements graph_world).
  { apply (bool_decide_eq_false_1 (1%nat ∈ connectedElements graph_world)). reflexivity. }
  assert (Hnot2 : 1%nat ∉ audioSource graph_world).
  { apply (bool_decide_eq_false_1 (1%nat ∈ audioSource graph_world)). reflexivity. }
  destruct (binding_failure_blocks_element_only refusing_page same_origin_audio
              graph_world 1%nat {| gain_value := 1%float |}
              {| message := "MediaElementAudioSource outputs zeroes due to CORS access restrictions" |}
              eq_refl eq_refl Hnot1 Hnot2 eq_refl (or_introl eq_refl))
    as (w' & Hret & Hblocked & Hconnected & Hsites & Hlater).
  exists w'. repeat split; try assumption.
  apply (Hlater [(example_page, SetGain 150)] example_page same_origin_audio).
  - repeat constructor. simpl. discriminate.
  - reflexivity.
Defined.

(** ** Reset *)

Lemma tryConnectToAudioContext_marked p element w :
  audioContext w <> None -> gainNode w <> None ->
  el_id element ∈ audioSource w ->
  exists w2,
    tryConnectToAudioContext p element w = (Normal true, w2)
    /\ connectedElements w2 = {[ el_id element ]} ∪ connectedElements w
    /\ audioSource w2 = audioSource w
    /\ calls w2 = calls w.
Proof.
  intros Hc Hg Hin. unfold tryConnectToAudioContext. unfold_monad. unfold_setters.
  destruct (audioContext w); [|congruence].
  destruct (gainNode w); [|congruence].
  unfold has. case_bool_decide as Htracked.
  - eexists. repeat split. set_solver.
  - rewrite bool_decide_eq_true_2 by exact Hin. eexists. repeat split.
Qed.

(** C6: in any state of a manager, [reset()] returns normally whether
    or not [close()] throws; afterwards [blockedSites], [blockedElements]
    and [connectedElements] are empty, both graph references are [null],
    and every [_audioSource] marker is where it was.  From then on,
    whenever the manager has a graph again, connecting an element that
    carried a marker returns [true], puts it into [connectedElements]
    and makes no Web Audio call. *)
Theorem reset_spec (p : Platform) (w : World) :
  reachable w ->
  exists w',
    reset p w = (Normal tt, w')
    /\ blockedSites w' = ∅ /\ blockedElements w' = ∅
    /\ connectedElements w' = ∅
    /\ audioContext w' = None /\ gainNode w' = None
    /\ audioSource w' = audioSource w
    /\ forall (script : list (Platform * Op)) (p' : Platform) (element : Element),
         el_id element ∈ audioSource w ->
         audioContext (run script w') <> None ->
         gainNode (run script w') <> None ->
         exists w2,
           tryConnectToAudioContext p' element (run script w') = (Normal true, w2)
           /\ connectedElements w2
              = {[ el_id element ]} ∪ connectedElements (run script w')
           /\ audioSource w2 = audioSource (run script w')
           /\ calls w2 = calls (run script w').
Proof.
  intros Hw. pose proof (gain_has_context w (reachable_consistent w Hw)) as Hgain.
  assert (Hreset : exists w',
    reset p w = (Normal tt, w')
    /\ blockedSites w' = ∅ /\ blockedElements w' = ∅
    /\ connectedElements w' = ∅
    /\ audioContext w' = None /\ gainNode w' = None
    /\ audioSource w' = audioSource w).
  { unfold reset. unfold_monad. unfold_setters. simpl.
    destruct (audioContext w) eqn:Hc.
    - destruct (close p); eexists; repeat split.
    - destruct (gainNode w) eqn:Hg; [exfalso; apply Hgain; congruence|].
      eexists. repeat split. }
  destruct Hreset as (w' & Hret & Hsites & Hblocked & Hconn & Hctx & Hnode & Hmark).
  exists w'. repeat split; try assumption.
  intros script p' element Hin Hc Hg.
  apply tryConnectToAudioContext_marked; try assumption.
  pose proof (run_keeps_marker script w'). rewrite Hmark in *. set_solver.
Qed.

Lemma reset_spec_witness :
  reachable routed_world
  /\ exists w',
       reset stuck_page routed_world = (Normal tt, w')
       /\ connectedElements w' = ∅
       /\ audioContext w' = None /\ gainNode w' = None
       /\ audioSource w' = audioSource routed_world
       /\ exists w2,
            tryConnectToAudioContext refusing_page same_origin_audio
              (run [(example_page, EnsureGraph)] w') = (Normal true, w2)
            /\ calls w2 = calls (run [(example_page, EnsureGraph)] w').
Proof.
  assert (Hreach : reachable routed_world).
  { repeat apply reachable_step. apply reachable_new. }
  split; [exact Hreach|].
  destruct (reset_spec stuck_page routed_world Hreach)
    as (w' & Hret & _ & _ & Hconn & Hctx & Hnode & Hmark & Hagain).
  exists w'. repeat split; try assumption.
  assert (Hin : el_id same_origin_audio ∈ audioSource routed_world).
  { apply (bool_decide_eq_true_1 (1%nat ∈ audioSource routed_world)). reflexivity. }
  destruct (initAudioContext_constructed example_page w' 1%nat Hctx
              eq_refl eq_refl eq_refl) as (w1 & Hinit & Hc1 & Hg1).
  assert (Hrun : run [(example_page, EnsureGraph)] w' = w1).
  { simpl. unfold exec. simpl. unfold bind. rewrite Hinit. reflexivity. }
  destruct (Hagain [(example_page, EnsureGraph)] refusing_page same_origin_audio Hin)
    as (w2 & Hconnect & _ & _ & Hcalls).
  - rewrite Hrun, Hc1. discriminate.
  - rewrite Hrun, Hg1. discriminate.
  - exists w2. split; assumption.
Defined.

(** ** The scenarios of the specification, evaluated *)

(** A same-origin element on a page with Web Audio: amplification is
    available, the element is not blocked, it connects, one element is
    tracked, and [setGainValue(200)] sets the gain to 2. *)
Example same_origin_scenario :
  fst (isAmplificationAvailable example_page new_world) = Normal true
  /\ fst (shouldBlockAmplification example_page same_origin_audio graph_world)
     = Normal false
  /\ fst (tryConnectToAudioContext example_page same_origin_audio graph_world)
     = Normal true
  /\ size (connectedElements routed_world) = 1%nat
  /\ gainNode (exec example_page (SetGain 200) routed_world)
     = Some {| gain_value := gain_of 200 |}
  /\ gain_of 200 = 2%float.
Proof.
  repeat split.
Qed.

(** An element that the check finds cross-origin is turned away before
    the binding: no Web Audio call is made and no set changes. *)
Example foreign_video_scenario :
  shouldBlockAmplification example_page foreign_video graph_world
  = (Normal true, graph_world)
  /\ tryConnectToAudioContext example_page foreign_video graph_world
     = (Normal false, graph_world).
Proof. split; reflexivity. Qed.

(** Without Web Audio the manager stays without graph. *)
Example silent_page_scenario :
  fst (initAudioContext silent_page new_world) = Normal false
  /\ audioContext (exec silent_page EnsureGraph new_world) = None
  /\ gainNode (exec silent_page EnsureGraph new_world) = None.
Proof. repeat split. Qed.

(** * Further properties of the manager *)

(** ** The cross-origin check, in full *)

Lemma source_is_foreign_false_iff p s w :
  source_is_foreign p (location_origin p) s w = (Normal false, w)
  <-> same_origin_source p s.
Proof.
  unfold source_is_foreign, same_origin_source, self_contained.
  destruct (startsWith s "blob:") eqn:Hb; [split; auto|].
  destruct (startsWith s "data:") eqn:Hd; [split; auto|].
  unfold_monad. destruct (URL_origin p s) as [o|e] eqn:Hu.
  - destruct (String.eqb o (location_origin p)) eqn:Ho; simpl.
    + apply String.eqb_eq in Ho. subst o. split; auto.
    + apply String.eqb_neq in Ho. split; [discriminate|].
      intros [[H|H]|H]; congruence.
  - split; [discriminate|]. intros [[H|H]|H]; congruence.
Qed.

Lemma scan_false_iff p l w :
  try_catch (array_some (source_is_foreign p (location_origin p)) l)
    (fun _ => ret true) w = (Normal false, w)
  <-> Forall (same_origin_source p) l.
Proof.
  induction l as [|x l IH].
  - split; [constructor|reflexivity].
  - unfold try_catch in *. simpl. unfold bind.
    pose proof (source_is_foreign_state p (location_origin p) x w) as Hst.
    pose proof (source_is_foreign_false_iff p x w) as Hx.
    destruct (source_is_foreign p (location_origin p) x w) as [[b|e] w1];
      simpl in Hst; subst w1.
    + destruct b.
      * split; [discriminate|]. intros Hall. inversion Hall; subst.
        destruct Hx as [_ Hx]. specialize (Hx ltac:(assumption)). discriminate.
      * rewrite IH. split.
        -- intros Hall. constructor; [apply Hx; reflexivity|exact Hall].
        -- intros Hall. inversion Hall; assumption.
    + split; [discriminate|]. intros Hall. inversion Hall; subst.
      destruct Hx as [_ Hx]. specialize (Hx ltac:(assumption)). discriminate.
Qed.

(** X1: [isCrossOriginElement] returns [false] exactly when the first
    test lets the element through and every collected source is taken
    for a [blob:] or [data:] URL or resolves to the origin of the page;
    in particular an element with no source at all is not cross-origin. *)
Theorem isCrossOriginElement_false_iff
    (p : Platform) (element : Element) (w : World) :
  isCrossOriginElement p element w = (Normal false, w)
  <-> first_test_passes p element
      /\ Forall (same_origin_source p) (sources_of element).
Proof.
  unfold isCrossOriginElement, first_test_passes.
  assert (Hscan :
    (if Nat.eqb (length (sources_of element)) 0 then ret false
     else try_catch
            (array_some (source_is_foreign p (location_origin p)) (sources_of element))
            (fun _ => ret true)) w = (Normal false, w)
    <-> Forall (same_origin_source p) (sources_of element)).
  { destruct (sources_of element) as [|x l] eqn:Hl.
    - simpl. split; [constructor|reflexivity].
    - simpl Nat.eqb. cbv iota. apply scan_false_iff. }
  destruct (crossOrigin element).
  - unfold bind at 1. unfold ret at 1. rewrite Hscan.
    split; [intros H; split; [discriminate|exact H]|intros [_ H]; exact H].
  - destruct (truthy (currentSrc element)).
    + unfold bind at 1. unfold try_catch, bind, pure_call.
      destruct (URL_origin p (currentSrc element)) as [o|e].
      * destruct (String.eqb o (location_origin p)) eqn:Ho; simpl negb; cbv iota.
        -- apply String.eqb_eq in Ho. subst o. unfold ret at 1. rewrite Hscan.
           split; [intros H; split; auto|intros [_ H]; exact H].
        -- apply String.eqb_neq in Ho. unfold ret.
           split; [discriminate|]. intros [H _].
           specialize (H eq_refl eq_refl). congruence.
      * unfold ret. split; [discriminate|]. intros [H _].
        specialize (H eq_refl eq_refl). discriminate.
    + unfold bind at 1. unfold ret at 1. rewrite Hscan.
      split; [intros H; split; [discriminate|exact H]|intros [_ H]; exact H].
Qed.

(** The verdict depends on the element and the browser, not on the
    manager. *)
Lemma scan_returns p l w :
  exists b,
    try_catch (array_some (source_is_foreign p (location_origin p)) l)
      (fun _ => ret true) w = (Normal b, w).
Proof.
  unfold try_catch.
  pose proof (array_some_state (source_is_foreign p (location_origin p)) l w
                (source_is_foreign_state p _)) as Hs.
  destruct (array_some _ l w) as [[b|e] w1]; simpl in Hs; subst w1;
    eexists; reflexivity.
Qed.

Lemma scan_any_world p l w w' :
  fst (try_catch (array_some (source_is_foreign p (location_origin p)) l)
         (fun _ => ret true) w)
  = fst (try_catch (array_some (source_is_foreign p (location_origin p)) l)
           (fun _ => ret true) w').
Proof.
  destruct (scan_returns p l w) as [b Hb].
  destruct (scan_returns p l w') as [b' Hb'].
  rewrite Hb, Hb'. simpl. f_equal.
  destruct b, b'; try reflexivity.
  - apply scan_false_iff in Hb'. apply (scan_false_iff p l w) in Hb'. congruence.
  - apply scan_false_iff in Hb. apply (scan_false_iff p l w') in Hb. congruence.
Qed.

Lemma isCrossOriginElement_steps p element w :
  isCrossOriginElement p element w
  = let scan :=
      (if Nat.eqb (length (sources_of element)) 0 then ret false
       else try_catch
              (array_some (source_is_foreign p (location_origin p))
                 (sources_of element))
              (fun _ => ret true)) w in
    match crossOrigin element with
    | Some _ => scan
    | None =>
        if truthy (currentSrc element) then
          match URL_origin p (currentSrc element) with
          | Normal o =>
              if negb (String.eqb o (location_origin p)) then (Normal true, w)
              else scan
          | Throw _ => (Normal true, w)
          end
        else scan
    end.
Proof.
  unfold isCrossOriginElement. cbv zeta.
  destruct (crossOrigin element); [reflexivity|].
  destruct (truthy (currentSrc element)); [|reflexivity].
  unfold bind at 1. unfold try_catch at 1. unfold bind at 1. unfold pure_call.
  destruct (URL_origin p (currentSrc element)) as [o|e]; [|reflexivity].
  destruct (negb (String.eqb o (location_origin p))); reflexivity.
Qed.

Lemma isCrossOriginElement_any_world p element w w' :
  fst (isCrossOriginElement p element w) = fst (isCrossOriginElement p element w').
Proof.
  rewrite !isCrossOriginElement_steps. cbv zeta.
  assert (Hscan :
    fst ((if Nat.eqb (length (sources_of element)) 0 then ret false
          else try_catch
                 (array_some (source_is_foreign p (location_origin p))
                    (sources_of element))
                 (fun _ => ret true)) w)
    = fst ((if Nat.eqb (length (sources_of element)) 0 then ret false
            else try_catch
                   (array_some (source_is_foreign p (location_origin p))
                      (sources_of element))
                   (fun _ => ret true)) w')).
  { destruct (Nat.eqb _ 0); [reflexivity|]. apply scan_any_world. }
  destruct (crossOrigin element); [exact Hscan|].
  destruct (truthy (currentSrc element)); [|exact Hscan].
  destruct (URL_origin p (currentSrc element)) as [o|e]; [|reflexivity].
  destruct (negb (String.eqb o (location_origin p))); [reflexivity|exact Hscan].
Qed.

Lemma scan_foreign p l s o w :
  In s l ->
  startsWith s "blob:" = false -> startsWith s "data:" = false ->
  URL_origin p s = Normal o -> o <> location_origin p ->
  try_catch (array_some (source_is_foreign p (location_origin p)) l)
    (fun _ => ret true) w = (Normal true, w).
Proof.
  intros Hin Hb Hd Hu Hne.
  destruct (scan_returns p l w) as [b Hrun].
  destruct b; [exact Hrun|].
  apply scan_false_iff in Hrun.
  rewrite Forall_forall in Hrun. apply list_elem_of_In in Hin.
  specialize (Hrun s Hin). destruct Hrun as [[H|H]|H]; congruence.
Qed.

(** X2: a collected source that is not taken for a [blob:] or [data:]
    URL and whose origin differs from the origin of the page makes the
    check return [true], whatever the [crossOrigin] attribute and the
    other sources are. *)
Theorem foreign_source_is_cross_origin
    (p : Platform) (element : Element) (w : World) (s o : string) :
  In s (sources_of element) ->
  startsWith s "blob:" = false -> startsWith s "data:" = false ->
  URL_origin p s = Normal o -> o <> location_origin p ->
  isCrossOriginElement p element w = (Normal true, w).
Proof.
  intros Hin Hb Hd Hu Hne. unfold isCrossOriginElement.
  assert (Hscan :
    (if Nat.eqb (length (sources_of element)) 0 then ret false
     else try_catch
            (array_some (source_is_foreign p (location_origin p)) (sources_of element))
            (fun _ => ret true)) w = (Normal true, w)).
  { rewrite (sources_nonempty element s Hin).
    apply (scan_foreign p _ s o w Hin Hb Hd Hu Hne). }
  destruct (crossOrigin element).
  - unfold bind at 1. unfold ret at 1. exact Hscan.
  - destruct (truthy (currentSrc element)).
    + unfold bind at 1. unfold try_catch, bind, pure_call.
      destruct (URL_origin p (currentSrc element)) as [o'|e'].
      * destruct (negb (String.eqb o' (location_origin p))); [reflexivity|].
        exact Hscan.
      * reflexivity.
    + unfold bind at 1. unfold ret at 1. exact Hscan.
Qed.

Lemma foreign_source_is_cross_origin_witness :
  In "https://cdn.example.net/a.mp4" (sources_of foreign_video)
  /\ isCrossOriginElement example_page foreign_video new_world
     = (Normal true, new_world).
Proof.
  assert (Hin : In "https://cdn.example.net/a.mp4" (sources_of foreign_video))
    by (left; reflexivity).
  split; [exact Hin|].
  apply (foreign_source_is_cross_origin example_page foreign_video new_world
           "https://cdn.example.net/a.mp4" "https://cdn.example.net"
           Hin eq_refl eq_refl eq_refl).
  discriminate.
Defined.

(** ** The ways through a connection *)

Lemma tryConnectToAudioContext_case p element w :
  connect_case p element w (tryConnectToAudioContext p element w).
Proof.
  destruct (shouldBlockAmplification_pure p element w) as [b Hb].
  unfold tryConnectToAudioContext. unfold_monad.
  destruct (audioContext w) as [c|] eqn:Hc;
    [|apply connect_no_graph; intros [H _]; congruence].
  destruct (gainNode w) as [g|] eqn:Hg;
    [|apply connect_no_graph; intros [_ H]; congruence].
  assert (Hgraph : has_graph w) by (split; congruence).
  unfold has. case_bool_decide as Htracked; [apply connect_tracked; assumption|].
  case_bool_decide as Hmarked; [apply connect_marked; assumption|].
  rewrite Hb. destruct b; [apply connect_turned_away; assumption|].
  destruct (createMediaElementSource p (el_id element)) as [[]|e] eqn:Hsrc.
  - destruct (source_connect p (el_id element)) as [[]|e] eqn:Hconn.
    + pose proof (connect_bound p element w Hgraph Htracked Hmarked Hb Hsrc Hconn) as H.
      unfold_setters. unfold set_calls in H. simpl in H.
      simpl. rewrite <- app_assoc. exact H.
    + pose proof (connect_refused p element w
                    [CallCreateMediaElementSource (el_id element);
                     CallSourceConnect (el_id element)]
                    Hgraph Htracked Hmarked Hb) as H.
      unfold_setters. unfold set_calls in H. simpl in H.
      simpl. rewrite <- app_assoc. apply H. right. exists e. auto.
  - pose proof (connect_refused p element w
                  [CallCreateMediaElementSource (el_id element)]
                  Hgraph Htracked Hmarked Hb) as H.
    unfold_setters. unfold set_calls in H. simpl in H.
    simpl. apply H. left. exists e. auto.
Qed.

(** X3: [tryConnectToAudioContext(element)] returns [true] exactly when
    both graph references are set and the element is already tracked, or
    carries an [_audioSource] marker, or is let through by
    [shouldBlockAmplification] and both [createMediaElementSource] and
    [source.connect] return. *)
Theorem tryConnectToAudioContext_true_iff
    (p : Platform) (element : Element) (w : World) :
  fst (tryConnectToAudioContext p element w) = Normal true
  <-> has_graph w
      /\ (el_id element ∈ connectedElements w
          \/ el_id element ∈ audioSource w
          \/ (shouldBlockAmplification p element w = (Normal false, w)
              /\ createMediaElementSource p (el_id element) = Normal tt
              /\ source_connect p (el_id element) = Normal tt)).
Proof.
  pose proof (tryConnectToAudioContext_case p element w) as Hcase.
  destruct (tryConnectToAudioContext p element w) as [r w'].
  inversion Hcase; subst; simpl; split; try discriminate; auto 7.
  - intros [Hg _]. contradiction.
  - intros [_ [H|[H|(H & _)]]]; [contradiction|contradiction|congruence].
  - intros [_ [Hin|[Hin|(_ & Hsrc & Hconn)]]]; [contradiction|contradiction|].
    match goal with
    | H : _ \/ _ |- _ => destruct H as [(e & He & _)|(e & _ & He & _)]; congruence
    end.
Qed.

(** X4: the count reported by [getConnectedElementsCount()] after
    [tryConnectToAudioContext(element)] is the count before plus one when
    the call returned [true] for an element that was not tracked, and the
    count before in every other case. *)
Theorem count_after_connect (p : Platform) (element : Element) (w : World) :
  getConnectedElementsCount (snd (tryConnectToAudioContext p element w))
  = (Normal (size (connectedElements w)
             + (if (returned_true (fst (tryConnectToAudioContext p element w))
                    && negb (has (connectedElements w) (el_id element)))%bool
                then 1 else 0))%nat,
     snd (tryConnectToAudioContext p element w)).
Proof.
  pose proof (tryConnectToAudioContext_case p element w) as Hcase.
  destruct (tryConnectToAudioContext p element w) as [r w'].
  unfold getConnectedElementsCount, has. unfold_monad.
  inversion Hcase; subst; simpl; f_equal; f_equal.
  - lia.
  - rewrite bool_decide_eq_true_2 by assumption. simpl. lia.
  - rewrite bool_decide_eq_false_2 by assumption. simpl.
    rewrite size_union by set_solver. rewrite size_singleton. lia.
  - lia.
  - rewrite bool_decide_eq_false_2 by assumption. simpl.
    rewrite size_union by set_solver. rewrite size_singleton. lia.
  - lia.
Qed.

(** X5: an element that [shouldBlockAmplification] turns away (it is
    in [blockedElements], or the cross-origin check reports it) is not
    handed to Web Audio by [tryConnectToAudioContext]: the call makes no
    Web Audio call, sets no marker and blocks nothing. *)
Theorem blocked_element_is_not_bound
    (p : Platform) (element : Element) (w : World) :
  shouldBlockAmplification p element w = (Normal true, w) ->
  calls (snd (tryConnectToAudioContext p element w)) = calls w
  /\ audioSource (snd (tryConnectToAudioContext p element w)) = audioSource w
  /\ blockedElements (snd (tryConnectToAudioContext p element w))
     = blockedElements w.
Proof.
  intros Hblock.
  pose proof (tryConnectToAudioContext_case p element w) as Hcase.
  destruct (tryConnectToAudioContext p element w) as [r w'].
  inversion Hcase; subst; simpl; auto; congruence.
Qed.

Lemma blocked_element_is_not_bound_witness :
  shouldBlockAmplification example_page foreign_video graph_world
  = (Normal true, graph_world)
  /\ calls (snd (tryConnectToAudioContext example_page foreign_video graph_world))
     = calls graph_world.
Proof.
  assert (Hblock : shouldBlockAmplification example_page foreign_video graph_world
                   = (Normal true, graph_world)) by reflexivity.
  split; [exact Hblock|].
  exact (proj1 (blocked_element_is_not_bound example_page foreign_video graph_world
                  Hblock)).
Defined.

Lemma tryConnectToAudioContext_marked_quiet p element w :
  el_id element ∈ audioSource w ->
  calls (snd (tryConnectToAudioContext p element w)) = calls w.
Proof.
  intros Hin.
  pose proof (tryConnectToAudioContext_case p element w) as Hcase.
  destruct (tryConnectToAudioContext p element w) as [r w'].
  inversion Hcase; subst; simpl; auto; contradiction.
Qed.

(** X6: an element is bound at most once.  In any state of a manager,
    once [tryConnectToAudioContext(element)] has returned [true] the
    element carries its marker through every later operation, [reset()]
    and [cleanupAudioSource] included, and no later call for that element
    makes a Web Audio call. *)
Theorem bound_element_is_never_rebound
    (p : Platform) (element : Element) (w w1 : World) :
  reachable w ->
  tryConnectToAudioContext p element w = (Normal true, w1) ->
  forall (script : list (Platform * Op)) (p' : Platform) (element' : Element),
    el_id element' = el_id element ->
    el_id element ∈ audioSource (run script w1)
    /\ calls (snd (tryConnectToAudioContext p' element' (run script w1)))
       = calls (run script w1).
Proof.
  intros Hw Hfirst script p' element' Hid.
  assert (Hmark : el_id element ∈ audioSource w1).
  { destruct (tryConnectToAudioContext_true p element w w1 Hfirst) as (_ & _ & Hin).
    pose proof (tryConnectToAudioContext_consistent p element w
                  (reachable_consistent w Hw)) as Hcons.
    rewrite Hfirst in Hcons. simpl in Hcons.
    apply (tracked_marked w1 Hcons). exact Hin. }
  assert (Hlater : el_id element ∈ audioSource (run script w1)).
  { pose proof (run_keeps_marker script w1). set_solver. }
  split; [exact Hlater|].
  apply tryConnectToAudioContext_marked_quiet. rewrite Hid. exact Hlater.
Qed.

Lemma bound_element_is_never_rebound_witness :
  reachable graph_world
  /\ tryConnectToAudioContext example_page same_origin_audio graph_world
     = (Normal true, routed_world)
  /\ calls (snd (tryConnectToAudioContext example_page same_origin_audio
                   (run [(example_page, Untrack same_origin_audio);
                         (stuck_page, Reset);
                         (example_page, EnsureGraph)] routed_world)))
     = calls (run [(example_page, Untrack same_origin_audio);
                   (stuck_page, Reset);
                   (example_page, EnsureGraph)] routed_world).
Proof.
  assert (Hreach : reachable graph_world).
  { apply reachable_step. apply reachable_new. }
  assert (Hfirst : tryConnectToAudioContext example_page same_origin_audio graph_world
                   = (Normal true, routed_world)) by reflexivity.
  split; [exact Hreach|split; [exact Hfirst|]].
  exact (proj2 (bound_element_is_never_rebound example_page same_origin_audio
                  graph_world routed_world Hreach Hfirst
                  [(example_page, Untrack same_origin_audio);
                   (stuck_page, Reset);
                   (example_page, EnsureGraph)]
                  example_page same_origin_audio eq_refl)).
Defined.

(** ** Tracking cleanup *)

(** X7: [cleanupAudioSource(element)] takes the element out of
    [connectedElements] and touches nothing else: the marker, the blocked
    sets, the graph and its gain stay, and no Web Audio call is made (the
    source node is not disconnected).  The count drops by one when the
    element was tracked and stays the same otherwise. *)
Theorem cleanupAudioSource_only_untracks (element : Element) (w : World) :
  exists w',
    cleanupAudioSource element w = (Normal tt, w')
    /\ connectedElements w' = connectedElements w ∖ {[ el_id element ]}
    /\ set_connectedElements (connectedElements w) w' = w
    /\ size (connectedElements w')
       = (size (connectedElements w)
          - (if has (connectedElements w) (el_id element) then 1 else 0))%nat.
Proof.
  unfold cleanupAudioSource. unfold_monad. unfold_setters.
  eexists. split; [reflexivity|]. simpl. split; [reflexivity|]. split.
  - destruct w; reflexivity.
  - unfold has. case_bool_decide as Hin.
    + rewrite size_difference by set_solver. rewrite size_singleton. reflexivity.
    + replace (connectedElements w ∖ {[ el_id element ]}) with (connectedElements w)
        by set_solver.
      lia.
Qed.

(** X8: untracking is undone by connecting again.  In any state of a
    manager where the element is tracked and the graph exists,
    [cleanupAudioSource(element)] followed by
    [tryConnectToAudioContext(element)] returns [true] and gives back the
    state before the cleanup, trace of Web Audio calls included. *)
Theorem untrack_then_connect
    (p : Platform) (element element' : Element) (w : World) :
  reachable w ->
  tracked_in_graph (el_id element) w ->
  el_id element' = el_id element ->
  tryConnectToAudioContext p element' (snd (cleanupAudioSource element w))
  = (Normal true, w).
Proof.
  intros Hw (Hc & Hg & Hin) Hid.
  pose proof (tracked_marked w (reachable_consistent w Hw)) as Hsub.
  unfold cleanupAudioSource, tryConnectToAudioContext. unfold_monad. unfold_setters.
  simpl. rewrite Hid.
  destruct (audioContext w) eqn:Ec; [|congruence].
  destruct (gainNode w) eqn:Eg; [|congruence].
  unfold has.
  rewrite bool_decide_eq_false_2 by set_solver.
  rewrite bool_decide_eq_true_2 by set_solver.
  f_equal. simpl.
  rewrite <- (union_difference_singleton_L _ _ Hin).
  destruct w; simpl in *. congruence.
Qed.

Lemma untrack_then_connect_witness :
  reachable routed_world
  /\ tracked_in_graph 1%nat routed_world
  /\ tryConnectToAudioContext refusing_page same_origin_audio
       (snd (cleanupAudioSource same_origin_audio routed_world))
     = (Normal true, routed_world).
Proof.
  assert (Hreach : reachable routed_world).
  { repeat apply reachable_step. apply reachable_new. }
  assert (Htracked : tracked_in_graph 1%nat routed_world).
  { split; [discriminate|split; [discriminate|]].
    apply (bool_decide_eq_true_1 (1%nat ∈ connectedElements routed_world)).
    reflexivity. }
  split; [exact Hreach|split; [exact Htracked|]].
  exact (untrack_then_connect refusing_page same_origin_audio same_origin_audio
           routed_world Hreach Htracked eq_refl).
Defined.

(** ** Blocking is per element *)

Lemma shouldBlockAmplification_same_blocked p element w w' :
  blockedElements w = blockedElements w' ->
  fst (shouldBlockAmplification p element w)
  = fst (shouldBlockAmplification p element w').
Proof.
  intros Heq. unfold shouldBlockAmplification. unfold_monad. rewrite Heq.
  destruct (has (blockedElements w') (el_id element)); [reflexivity|].
  apply isCrossOriginElement_any_world.
Qed.

(** X9: connecting one element, whether it succeeds, is turned away or
    is refused by the browser, does not change what
    [shouldBlockAmplification] answers for an element with another
    identity. *)
Theorem blocking_is_per_element
    (p p' : Platform) (a b : Element) (w : World) :
  el_id a <> el_id b ->
  fst (shouldBlockAmplification p b (snd (tryConnectToAudioContext p' a w)))
  = fst (shouldBlockAmplification p b w).
Proof.
  intros Hne.
  pose proof (tryConnectToAudioContext_case p' a w) as Hcase.
  destruct (tryConnectToAudioContext p' a w) as [r w'].
  inversion Hcase; subst; simpl;
    try (apply shouldBlockAmplification_same_blocked; reflexivity).
  unfold shouldBlockAmplification. unfold_monad. unfold_setters. simpl.
  unfold has.
  destruct (decide (el_id b ∈ blockedElements w)) as [Hin|Hout].
  - rewrite !bool_decide_eq_true_2 by set_solver. reflexivity.
  - rewrite !bool_decide_eq_false_2 by set_solver.
    apply isCrossOriginElement_any_world.
Qed.

Lemma blocking_is_per_element_witness :
  el_id refused_video <> el_id same_origin_audio
  /\ 5%nat ∈ blockedElements
               (snd (tryConnectToAudioContext refusing_page refused_video graph_world))
  /\ fst (shouldBlockAmplification example_page same_origin_audio
            (snd (tryConnectToAudioContext refusing_page refused_video graph_world)))
     = fst (shouldBlockAmplification example_page same_origin_audio graph_world).
Proof.
  assert (Hne : el_id refused_video <> el_id same_origin_audio) by discriminate.
  split; [exact Hne|split].
  - apply (bool_decide_eq_true_1
             (5%nat ∈ blockedElements
                (snd (tryConnectToAudioContext refusing_page refused_video graph_world)))).
    reflexivity.
  - exact (blocking_is_per_element example_page refusing_page refused_video
             same_origin_audio graph_world Hne).
Defined.

(** ** Site blocking *)

(** X10: [markSiteAsBlocked()] adds the lower-cased host name of the
    page to [blockedSites] and changes nothing else.  Afterwards
    [isSiteBlocked()], which changes nothing either, answers [true] on
    every page whose host name is the same up to letter case, and on a
    page with another host name it answers what it answered before. *)
Theorem isSiteBlocked_after_mark (p p' : Platform) (w : World) :
  exists w1,
    markSiteAsBlocked p w = (Normal tt, w1)
    /\ blockedSites w1 = {[ toLowerCase (location_hostname p) ]} ∪ blockedSites w
    /\ audioContext w1 = audioContext w
    /\ gainNode w1 = gainNode w
    /\ connectedElements w1 = connectedElements w
    /\ blockedElements w1 = blockedElements w
    /\ audioSource w1 = audioSource w
    /\ calls w1 = calls w
    /\ exists before after,
         isSiteBlocked p' w = (Normal before, w)
         /\ isSiteBlocked p' w1 = (Normal after, w1)
         /\ (before = true
             <-> toLowerCase (location_hostname p') ∈ blockedSites w)
         /\ (after = true
             <-> toLowerCase (location_hostname p') = toLowerCase (location_hostname p)
                 \/ before = true).
Proof.
  unfold isSiteBlocked, markSiteAsBlocked. unfold_monad. unfold_setters.
  eexists. split; [reflexivity|]. simpl. repeat (split; [reflexivity|]).
  do 2 eexists. split; [reflexivity|]. split; [reflexivity|].
  unfold has. rewrite !bool_decide_eq_true. split; [reflexivity|].
  rewrite elem_of_union, elem_of_singleton. reflexivity.
Qed.

(** Letter case of the host name, on an example. *)
Example mixed_case_host_is_blocked :
  toLowerCase "Media.Example.COM" = "media.example.com"
  /\ toLowerCase "media.example.com" = "media.example.com".
Proof. split; reflexivity. Qed.

Lemma exec_keeps_sites p o w :
  o <> MarkOriginBlocked -> blockedSites (exec p o w) ⊆ blockedSites w.
Proof.
  intros Hno. unfold exec. destruct o; simpl; try congruence.
  - unfold initAudioContext. unfold_monad. unfold_setters.
    destruct (audioContext w); [set_solver|].
    destruct (new_AudioContext p), (createGain p), (connect_destination p);
      simpl; set_solver.
  - unfold isAmplificationAvailable, isSiteBlocked. unfold_monad.
    destruct (negb (has (blockedSites w) _)); [|set_solver].
    destruct (audioContext w) eqn:Hc; [set_solver|].
    unfold initAudioContext. unfold_monad. unfold_setters. rewrite Hc.
    destruct (new_AudioContext p), (createGain p), (connect_destination p);
      simpl; set_solver.
  - destruct (shouldBlockAmplification_pure p element w) as [b Hb].
    unfold bind. rewrite Hb. set_solver.
  - pose proof (tryConnectToAudioContext_case p element w) as Hcase.
    unfold bind. destruct (tryConnectToAudioContext p element w) as [r w'].
    inversion Hcase; subst; simpl; set_solver.
  - unfold setGainValue, isSiteBlocked. unfold_monad. unfold_setters.
    destruct (gainNode w); [|set_solver].
    destruct (negb _ && _)%bool; simpl; set_solver.
  - unfold reset. unfold_monad. unfold_setters. simpl.
    destruct (audioContext w); [destruct (close p)|]; simpl; set_solver.
Qed.

(** X11: the manager never blocks a site of its own accord.  From a
    state with no blocked site, as long as the caller does not call
    [markSiteAsBlocked()], [isSiteBlocked()] answers [false] after any
    sequence of operations, whatever the browser throws on the way. *)
Theorem site_blocking_is_callers_decision
    (script : list (Platform * Op)) (w : World) (p : Platform) :
  without_mark script ->
  blockedSites w = ∅ ->
  isSiteBlocked p (run script w) = (Normal false, run script w).
Proof.
  intros Hno Hempty.
  assert (Hsites : blockedSites (run script w) = ∅).
  { revert w Hempty. induction Hno as [|[p0 o] rest Ho _ IH]; intros w Hempty.
    - exact Hempty.
    - simpl. apply IH. simpl in Ho.
      pose proof (exec_keeps_sites p0 o w Ho). set_solver. }
  unfold isSiteBlocked. unfold_monad. unfold has. rewrite Hsites.
  rewrite bool_decide_eq_false_2 by set_solver. reflexivity.
Qed.

Lemma site_blocking_is_callers_decision_witness :
  without_mark [(example_page, EnsureGraph); (refusing_page, Connect refused_video)]
  /\ isSiteBlocked example_page
       (run [(example_page, EnsureGraph); (refusing_page, Connect refused_video)]
          new_world)
     = (Normal false,
        run [(example_page, EnsureGraph); (refusing_page, Connect refused_video)]
          new_world).
Proof.
  assert (Hno : without_mark
                  [(example_page, EnsureGraph); (refusing_page, Connect refused_video)]).
  { repeat constructor; simpl; discriminate. }
  split; [exact Hno|].
  exact (site_blocking_is_callers_decision _ new_world example_page Hno eq_refl).
Defined.

Lemma exec_keeps_site_blocked p o w :
  o <> Reset -> blockedSites w ⊆ blockedSites (exec p o w).
Proof.
  intros Hno. unfold exec. destruct o; simpl; try congruence.
  - unfold initAudioContext. unfold_monad. unfold_setters.
    destruct (audioContext w); [set_solver|].
    destruct (new_AudioContext p), (createGain p), (connect_destination p);
      simpl; set_solver.
  - unfold isAmplificationAvailable, isSiteBlocked. unfold_monad.
    destruct (negb (has (blockedSites w) _)); [|set_solver].
    destruct (audioContext w) eqn:Hc; [set_solver|].
    unfold initAudioContext. unfold_monad. unfold_setters. rewrite Hc.
    destruct (new_AudioContext p), (createGain p), (connect_destination p);
      simpl; set_solver.
  - destruct (shouldBlockAmplification_pure p element w) as [b Hb].
    unfold bind. rewrite Hb. set_solver.
  - pose proof (tryConnectToAudioContext_case p element w) as Hcase.
    unfold bind. destruct (tryConnectToAudioContext p element w) as [r w'].
    inversion Hcase; subst; simpl; set_solver.
  - unfold setGainValue, isSiteBlocked. unfold_monad. unfold_setters.
    destruct (gainNode w); [|set_solver].
    destruct (negb _ && _)%bool; simpl; set_solver.
  - unfold markSiteAsBlocked. unfold_monad. unfold_setters. simpl. set_solver.
Qed.

Lemma run_keeps_site_blocked script w h :
  without_reset script -> h ∈ blockedSites w -> h ∈ blockedSites (run script w).
Proof.
  intros Hno. revert w. induction Hno as [|[p o] rest Ho _ IH]; intros w Hin.
  - exact Hin.
  - simpl. apply IH. simpl in Ho.
    pose proof (exec_keeps_site_blocked p o w Ho). set_solver.
Qed.

(** X12: once [markSiteAsBlocked()] has been called on a page, and
    until a [reset()], whatever other operations follow: on every page
    with that host name (up to letter case) [isSiteBlocked()] answers
    [true], [isAmplificationAvailable()] answers [false] without trying
    to build a graph, and [setGainValue] writes nothing, even when a
    graph exists and elements are tracked. *)
Theorem marked_site_is_disabled
    (p p' : Platform) (volume : Z) (w : World) (script : list (Platform * Op)) :
  without_reset script ->
  toLowerCase (location_hostname p') = toLowerCase (location_hostname p) ->
  isSiteBlocked p' (run script (snd (markSiteAsBlocked p w)))
  = (Normal true, run script (snd (markSiteAsBlocked p w)))
  /\ isAmplificationAvailable p' (run script (snd (markSiteAsBlocked p w)))
     = (Normal false, run script (snd (markSiteAsBlocked p w)))
  /\ setGainValue p' volume (run script (snd (markSiteAsBlocked p w)))
     = (Normal tt, run script (snd (markSiteAsBlocked p w))).
Proof.
  intros Hno Hhost.
  assert (Hblocked : isSiteBlocked p' (run script (snd (markSiteAsBlocked p w)))
                     = (Normal true, run script (snd (markSiteAsBlocked p w)))).
  { assert (Hin : toLowerCase (location_hostname p')
                  ∈ blockedSites (run script (snd (markSiteAsBlocked p w)))).
    { apply run_keeps_site_blocked; [exact Hno|].
      unfold markSiteAsBlocked. unfold_monad. unfold_setters. simpl.
      rewrite Hhost. set_solver. }
    unfold isSiteBlocked. unfold_monad. unfold has.
    rewrite bool_decide_eq_true_2 by exact Hin. reflexivity. }
  split; [exact Hblocked|]. split.
  - unfold isAmplificationAvailable. unfold bind at 1. rewrite Hblocked. reflexivity.
  - unfold setGainValue. unfold bind at 1. unfold get at 1.
    destruct (gainNode (run script (snd (markSiteAsBlocked p w)))); [|reflexivity].
    unfold bind at 1. rewrite Hblocked. reflexivity.
Qed.

Lemma marked_site_is_disabled_witness :
  without_reset [(example_page, EnsureGraph); (example_page, SetGain 300)]
  /\ isAmplificationAvailable example_page
       (run [(example_page, EnsureGraph); (example_page, SetGain 300)]
          (snd (markSiteAsBlocked example_page routed_world)))
     = (Normal false,
        run [(example_page, EnsureGraph); (example_page, SetGain 300)]
          (snd (markSiteAsBlocked example_page routed_world)))
  /\ gainNode (run [(example_page, EnsureGraph); (example_page, SetGain 300)]
                 (snd (markSiteAsBlocked example_page routed_world)))
     = Some {| gain_value := 1%float |}.
Proof.
  assert (Hno : without_reset
                  [(example_page, EnsureGraph); (example_page, SetGain 300)]).
  { repeat constructor; simpl; discriminate. }
  split; [exact Hno|]. split; [|reflexivity].
  exact (proj1 (proj2 (marked_site_is_disabled example_page example_page 300
                         routed_world _ Hno eq_refl))).
Defined.

(** X13: [tryConnectToAudioContext] neither reads nor writes
    [blockedSites]: with any other set of blocked sites it returns the
    same value and makes the same changes, so a blocked site does not by
    itself stop a connection. *)
Theorem connect_ignores_site_blocking
    (p : Platform) (element : Element) (sites : gset string) (w : World) :
  tryConnectToAudioContext p element (set_blockedSites sites w)
  = (fst (tryConnectToAudioContext p element w),
     set_blockedSites sites (snd (tryConnectToAudioContext p element w))).
Proof.
  destruct (shouldBlockAmplification_pure p element w) as [b Hb].
  destruct (shouldBlockAmplification_pure p element (set_blockedSites sites w))
    as [b' Hb'].
  assert (Hsame : b' = b).
  { pose proof (shouldBlockAmplification_same_blocked p element
                  (set_blockedSites sites w) w eq_refl) as H.
    rewrite Hb, Hb' in H. simpl in H. congruence. }
  subst b'.
  unfold tryConnectToAudioContext. unfold_monad. unfold_setters. simpl.
  destruct (audioContext w) eqn:Hc; [|simpl; rewrite ?Hc; reflexivity].
  destruct (gainNode w) eqn:Hg; [|simpl; rewrite ?Hc, ?Hg; reflexivity].
  destruct (has (connectedElements w) (el_id element));
    [simpl; rewrite ?Hc, ?Hg; reflexivity|].
  destruct (has (audioSource w) (el_id element));
    [simpl; rewrite ?Hc, ?Hg; reflexivity|].
  rewrite Hb, Hb'. destruct b; [simpl; rewrite ?Hc, ?Hg; reflexivity|].
  destruct (createMediaElementSource p (el_id element));
    [|simpl; rewrite ?Hc, ?Hg; reflexivity].
  destruct (source_connect p (el_id element));
    simpl; rewrite ?Hc, ?Hg; reflexivity.
Qed.

(** ** Reset, gain and graph, composed *)

(** X14: a second [reset()] right after a [reset()] changes nothing
    and does not call [close()] again. *)
Theorem reset_twice (p p' : Platform) (w : World) :
  reset p' (snd (reset p w)) = (Normal tt, snd (reset p w)).
Proof.
  unfold reset. unfold_monad. unfold_setters. simpl.
  destruct (audioContext w) eqn:Hc; simpl.
  - destruct (close p); reflexivity.
  - rewrite ?Hc. reflexivity.
Qed.

(** X15: of two [setGainValue] calls in a row only the second counts:
    the state is the one the second call alone would have left. *)
Theorem setGainValue_last_write_wins (p : Platform) (v1 v2 : Z) (w : World) :
  setGainValue p v2 (snd (setGainValue p v1 w)) = setGainValue p v2 w.
Proof.
  unfold setGainValue, isSiteBlocked. unfold_monad. unfold_setters.
  destruct (gainNode w) eqn:Hg; simpl; [|rewrite Hg; reflexivity].
  destruct (negb _ && _)%bool eqn:Hcond; simpl.
  - rewrite Hcond. reflexivity.
  - rewrite Hg, Hcond. reflexivity.
Qed.

Lemma run_keeps_context script w :
  without_reset script ->
  audioContext w <> None -> audioContext (run script w) <> None.
Proof.
  intros Hno. revert w. induction Hno as [|[p o] rest Ho _ IH]; intros w Hc.
  - exact Hc.
  - simpl. apply IH. simpl in Ho.
    apply (grows_context _ _ (proj1 (exec_grows p o w Ho))). exact Hc.
Qed.

(** X16: once [initAudioContext()] has returned [true], and until a
    [reset()], whatever other operations follow, every later call returns
    [true] and leaves the state and the browser alone, whatever the
    browser would answer. *)
Theorem initAudioContext_once
    (p p' : Platform) (w w1 : World) (script : list (Platform * Op)) :
  initAudioContext p w = (Normal true, w1) ->
  without_reset script ->
  initAudioContext p' (run script w1) = (Normal true, run script w1).
Proof.
  intros Hfirst Hno.
  assert (Hctx : audioContext w1 <> None).
  { unfold initAudioContext in Hfirst. unfold_monad. unfold_setters.
    destruct (audioContext w) eqn:Hc.
    - injection Hfirst as <-. congruence.
    - destruct (new_AudioContext p); [|discriminate].
      destruct (createGain p); [|discriminate].
      destruct (connect_destination p); [|discriminate].
      injection Hfirst as <-. discriminate. }
  pose proof (run_keeps_context script w1 Hno Hctx) as Hlater.
  destruct (audioContext (run script w1)) as [c|] eqn:Ec; [|congruence].
  apply (initAudioContext_existing p' (run script w1) c Ec).
Qed.

Lemma initAudioContext_once_witness :
  initAudioContext example_page new_world = (Normal true, graph_world)
  /\ without_reset [(example_page, Connect same_origin_audio);
                    (example_page, Untrack same_origin_audio)]
  /\ initAudioContext silent_page
       (run [(example_page, Connect same_origin_audio);
             (example_page, Untrack same_origin_audio)] graph_world)
     = (Normal true,
        run [(example_page, Connect same_origin_audio);
             (example_page, Untrack same_origin_audio)] graph_world).
Proof.
  assert (Hfirst : initAudioContext example_page new_world
                   = (Normal true, graph_world)) by reflexivity.
  assert (Hno : without_reset [(example_page, Connect same_origin_audio);
                               (example_page, Untrack same_origin_audio)]).
  { repeat constructor; simpl; discriminate. }
  split; [exact Hfirst|split; [exact Hno|]].
  exact (initAudioContext_once example_page silent_page new_world graph_world _
           Hfirst Hno).
Defined.

(** X17: a manager that holds a context but no gain node stays that
    way until [reset()]: [initAudioContext()] returns [true] without
    building the gain node, [isAmplificationAvailable()] returns [true]
    on a site that is not blocked, and every [tryConnectToAudioContext]
    returns [false] and every [setGainValue] writes nothing; [reset()]
    clears both references. *)
Theorem context_without_gain_is_inert
    (p : Platform) (element : Element) (volume : Z) (w : World) (c : nat) :
  audioContext w = Some c -> gainNode w = None ->
  initAudioContext p w = (Normal true, w)
  /\ (isSiteBlocked p w = (Normal false, w) ->
      isAmplificationAvailable p w = (Normal true, w))
  /\ tryConnectToAudioContext p element w = (Normal false, w)
  /\ setGainValue p volume w = (Normal tt, w)
  /\ audioContext (snd (reset p w)) = None
  /\ gainNode (snd (reset p w)) = None.
Proof.
  intros Hc Hg. split; [apply (initAudioContext_existing p w c Hc)|].
  split; [|split; [|split; [|split]]].
  - intros Hsite. unfold isAmplificationAvailable. unfold bind at 1.
    rewrite Hsite. unfold_monad. simpl. rewrite Hc. reflexivity.
  - unfold tryConnectToAudioContext. unfold_monad. rewrite Hc, Hg. reflexivity.
  - unfold setGainValue. unfold_monad. rewrite Hg. reflexivity.
  - unfold reset. unfold_monad. unfold_setters. simpl. rewrite Hc.
    destruct (close p); reflexivity.
  - unfold reset. unfold_monad. unfold_setters. simpl. rewrite Hc.
    destruct (close p); reflexivity.
Qed.

Lemma context_without_gain_is_inert_witness :
  audioContext half_built_world = Some 1%nat
  /\ gainNode half_built_world = None
  /\ initAudioContext example_page half_built_world = (Normal true, half_built_world)
  /\ tryConnectToAudioContext example_page same_origin_audio half_built_world
     = (Normal false, half_built_world).
Proof.
  destruct (context_without_gain_is_inert example_page same_origin_audio 100
              half_built_world 1%nat eq_refl eq_refl)
    as (Hinit & _ & Hconnect & _).
  repeat split; assumption.
Defined.

(** ** The size report of the release script *)

(** X18: for a package of [SIZE] bytes, [SIZE] below [2^63], the
    release script reports [SIZE / 1024] KB, rounded down, as long as
    that is at most 1024, that is for every size below 1049600 bytes, a
    package of exactly one mebibyte included; from 1049600 bytes on it
    reports [SIZE / 1048576] MB, rounded down; and ["unknown"] when the
    package does not exist. *)
Theorem size_text_bounds (SIZE : Z) :
  0 <= SIZE < 2 ^ 63 ->
  (SIZE < 1049600 ->
   size_text true SIZE = SizeKB (SIZE / 1024) /\ 0 <= SIZE / 1024 <= 1024)
  /\ (1049600 <= SIZE ->
      size_text true SIZE = SizeMB (SIZE / 1048576) /\ 1 <= SIZE / 1048576)
  /\ size_text false SIZE = SizeUnknown.
Proof.
  intros Hrange. unfold size_text, wrap64.
  assert (Hwrap : (SIZE + 2 ^ 63) mod 2 ^ 64 - 2 ^ 63 = SIZE).
  { rewrite Z.mod_small by lia. lia. }
  rewrite Hwrap.
  rewrite (Z.quot_div_nonneg SIZE 1024) by lia.
  pose proof (Z.div_mod SIZE 1024 ltac:(lia)) as Hkb.
  pose proof (Z.mod_pos_bound SIZE 1024 ltac:(lia)) as Hkr.
  assert (Hkpos : 0 <= SIZE / 1024) by (apply Z.div_pos; lia).
  split; [|split; [|reflexivity]].
  - intros Hsmall.
    destruct (Z.gtb_spec (SIZE / 1024) 1024) as [Hbig|Hle]; [lia|].
    split; [reflexivity|lia].
  - intros Hlarge.
    destruct (Z.gtb_spec (SIZE / 1024) 1024) as [Hbig|Hle]; [|lia].
    rewrite (Z.quot_div_nonneg (SIZE / 1024) 1024) by lia.
    rewrite Z.div_div by lia. change (1024 * 1024) with 1048576.
    split; [reflexivity|]. apply Z.div_le_lower_bound; lia.
Qed.

Lemma size_text_bounds_witness :
  0 <= 1048577 < 2 ^ 63
  /\ size_text true 1048577 = SizeKB 1024
  /\ render_size_text (size_text true 1048577) = "1024 KB"
  /\ size_text true 1049600 = SizeMB 1
  /\ render_size_text (size_text true 5000000) = "4 MB".
Proof.
  assert (Hrange : 0 <= 1048577 < 2 ^ 63) by lia.
  assert (Hrange' : 0 <= 1049600 < 2 ^ 63) by lia.
  split; [exact Hrange|].
  split; [exact (proj1 (proj1 (size_text_bounds 1048577 Hrange) ltac:(lia)))|].
  split; [reflexivity|].
  split; [exact (proj1 (proj1 (proj2 (size_text_bounds 1049600 Hrange')) ltac:(lia)))|].
  reflexivity.
Defined.

(** ** Exceptions and markers *)

(** X19: no method of the manager lets an exception escape, whatever
    the browser throws from [new URL], the [AudioContext] constructor,
    [createGain], [connect], [createMediaElementSource] or [close]. *)
Theorem no_method_throws
    (p : Platform) (element : Element) (volume : Z) (w : World) :
  (exists b w', initAudioContext p w = (Normal b, w'))
  /\ (exists b w', isAmplificationAvailable p w = (Normal b, w'))
  /\ (exists b, isCrossOriginElement p element w = (Normal b, w))
  /\ (exists b, shouldBlockAmplification p element w = (Normal b, w))
  /\ (exists b w', tryConnectToAudioContext p element w = (Normal b, w'))
  /\ (exists w', setGainValue p volume w = (Normal tt, w'))
  /\ (exists w', cleanupAudioSource element w = (Normal tt, w'))
  /\ (exists w', reset p w = (Normal tt, w')).
Proof.
  split; [apply initAudioContext_returns|].
  split.
  { destruct (perform_returns p IsAvailable w) as [w' Hrun]. simpl in Hrun.
    unfold bind in Hrun.
    destruct (isAmplificationAvailable p w) as [[b|e] w1]; [|discriminate].
    eauto. }
  split; [apply isCrossOriginElement_pure|].
  split; [apply shouldBlockAmplification_pure|].
  split.
  { pose proof (tryConnectToAudioContext_case p element w) as Hcase.
    destruct (tryConnectToAudioContext p element w) as [r w'].
    inversion Hcase; subst; eauto. }
  split; [apply (perform_returns p (SetGain volume) w)|].
  split; [apply (perform_returns p (Untrack element) w)|].
  apply (perform_returns p Reset w).
Qed.

(** X20: in every state of a manager each tracked element carries the
    [_audioSource] marker, and no element that carries the marker is in
    [blockedElements]: what is counted as connected was bound, and what
    was bound is never treated as failed. *)
Theorem tracked_elements_are_marked (w : World) :
  reachable w ->
  connectedElements w ⊆ audioSource w
  /\ audioSource w ## blockedElements w
  /\ (size (connectedElements w) <= size (audioSource w))%nat.
Proof.
  intros Hw. destruct (reachable_consistent w Hw) as [_ Hsub Hdisj].
  split; [exact Hsub|split; [exact Hdisj|]].
  apply subseteq_size. exact Hsub.
Qed.

Lemma tracked_elements_are_marked_witness :
  reachable refused_world
  /\ connectedElements refused_world ⊆ audioSource refused_world
  /\ audioSource refused_world ## blockedElements refused_world
  /\ (size (connectedElements refused_world) <= size (audioSource refused_world))%nat.
Proof.
  assert (Hreach : reachable refused_world).
  { repeat apply reachable_step. apply reachable_new. }
  split; [exact Hreach|].
  exact (tracked_elements_are_marked refused_world Hreach).
Defined.


